(** * ModernEU RAG chatbot: chunker and vector index

    A shallow embedding of [app/utils/document_processor.py] and
    [app/utils/vector_store.py], with the properties the specification
    states about them.

    Python values are modelled as follows.
    - [int] is [Z] (unbounded).
    - [str] is a list of Unicode code points, each an [N].
    - A raised exception is the [Raise] constructor of [Result].
    - The [while] loop of [chunk_text] takes a fuel argument; [None] means
      the fuel ran out before the loop condition became false. *)

From Stdlib Require Import Ascii String DecimalString.
From Stdlib Require DecimalZ Finite.
From Stdlib Require Import List ZArith NArith Lia Bool Permutation.
Import ListNotations.

Local Open Scope Z_scope.

(** ** Python strings *)

Module PyStr.

Definition char := N.
Definition str := list char.

(** A literal, for readable examples. *)
Definition lit (s : string) : str := map N_of_ascii (list_ascii_of_string s).

Definition PERIOD : char := 46%N.
Definition NEWLINE : char := 10%N.
Definition SPACE : char := 32%N.

(** [str.isspace] on one code point: CPython's [_PyUnicode_IsWhitespace]. *)
Definition isspace (c : char) : bool :=
  ((9 <=? c) && (c <=? 13) || (28 <=? c) && (c <=? 32)
   || (c =? 133) || (c =? 160) || (c =? 5760)
   || (8192 <=? c) && (c <=? 8202)
   || (c =? 8232) || (c =? 8233) || (c =? 8239) || (c =? 8287)
   || (c =? 12288))%N.

Fixpoint lstrip (s : str) : str :=
  match s with
  | [] => []
  | c :: t => if isspace c then lstrip t else s
  end.

Definition rstrip (s : str) : str := rev (lstrip (rev s)).

(** [s.strip()] with no argument. *)
Definition strip (s : str) : str := rstrip (lstrip s).

(** [s.rfind(c)] for a one-character needle: the highest index holding
    [c], or [-1]. *)
Fixpoint rfind (c : char) (s : str) : Z :=
  match s with
  | [] => -1
  | x :: t =>
      let r := rfind c t in
      if 0 <=? r then r + 1 else if (x =? c)%N then 0 else -1
  end.

(** Index adjustment of a slice with step 1 ([PySlice_AdjustIndices]). *)
Definition adjust_index (len i : Z) : Z :=
  if i <? 0 then Z.max 0 (i + len) else Z.min i len.

(** [s[start:stop]]. *)
Definition slice (s : str) (start stop : Z) : str :=
  let len := Z.of_nat (length s) in
  let a := adjust_index len start in
  let b := adjust_index len stop in
  firstn (Z.to_nat (b - a)) (skipn (Z.to_nat a) s).

(** Truth value of a string. *)
Definition truthy (s : str) : bool :=
  match s with [] => false | _ :: _ => true end.

Definition startswith_char (c : char) (s : str) : bool :=
  match s with x :: _ => (x =? c)%N | [] => false end.

Definition endswith_char (c : char) (s : str) : bool :=
  match rev s with x :: _ => (x =? c)%N | [] => false end.

Fixpoint eqb (a b : str) : bool :=
  match a, b with
  | [], [] => true
  | x :: a', y :: b' => (x =? y)%N && eqb a' b'
  | _, _ => false
  end.

End PyStr.

Import PyStr.

(** ** Exceptions *)

Inductive exn : Type :=
| ValueError
| OSError
| FileNotFoundError
| EmbeddingError
| DuplicateIDError.

Inductive Result (A : Type) : Type :=
| Ok (a : A)
| Raise (e : exn).
Arguments Ok {A} a.
Arguments Raise {A} e.

(** ** Documents

    [process_directory] builds dictionaries with the fixed keys below, and
    [add_documents] reads them back; [doc.get('metadata', {})] of a
    document without metadata is [None] here. *)

Record Metadata : Type := mk_metadata
  { source : str;
    chunk_index : Z;
    total_chunks : Z;
    file_path : str }.

Record Document : Type := mk_document
  { content : str;
    metadata : option Metadata }.

(** ** The file system seen by the ingestion

    [walk d] is the sequence of [(root, dirs, files)] that [os.walk(d)]
    yields; [read_text p] is the outcome of opening [p] and reading it as
    UTF-8. *)

Record FileSystem : Type := mk_fs
  { path_exists : str -> bool;
    walk : str -> list (str * list str * list str);
    read_text : str -> Result str }.

(** ** document_processor.py *)

Module DocumentProcessor.

Record t : Type := mk
  { chunk_size : Z;
    chunk_overlap : Z }.

(** The state of the [while] loop of [chunk_text]. *)
Record loop_state : Type := mk_state
  { start : Z;
    chunks : list str }.

(** [max(last_period, last_newline, last_space)]. *)
Definition break_point (chunk : str) : Z :=
  let last_period := rfind PERIOD chunk in
  let last_newline := rfind NEWLINE chunk in
  let last_space := rfind SPACE chunk in
  Z.max (Z.max last_period last_newline) last_space.

(** [break_point > self.chunk_size * 0.5].  The product is exact for
    every [chunk_size] below 2^53 in absolute value, and Python compares
    an [int] with a [float] exactly, so the test is [chunk_size < 2 * bp]. *)
Definition beyond_half (self : t) (bp : Z) : bool :=
  chunk_size self <? 2 * bp.

(** The window chosen by one iteration: the chunk before stripping and the
    value of [end]. *)
Definition window (self : t) (text : str) (start : Z) : str * Z :=
  let text_length := Z.of_nat (length text) in
  let end_ := start + chunk_size self in
  let chunk := slice text start end_ in
  if end_ <? text_length then
    let bp := break_point chunk in
    if beyond_half self bp
    then (slice chunk 0 (bp + 1), start + bp + 1)
    else (chunk, end_)
  else (chunk, end_).

(** One iteration of the loop body. *)
Definition loop_body (self : t) (text : str) (st : loop_state) : loop_state :=
  let '(chunk, end_) := window self text (start st) in
  let chunk := strip chunk in
  let chunks' := if truthy chunk then chunks st ++ [chunk] else chunks st in
  {| start := end_ - chunk_overlap self; chunks := chunks' |}.

Fixpoint chunk_loop (fuel : nat) (self : t) (text : str) (st : loop_state)
  : option (list str) :=
  if start st <? Z.of_nat (length text) then
    match fuel with
    | O => None
    | S fuel' => chunk_loop fuel' self text (loop_body self text st)
    end
  else Some (chunks st).

Definition chunk_text (fuel : nat) (self : t) (text : str) : option (list str) :=
  chunk_loop fuel self text {| start := 0; chunks := [] |}.

(** [os.path.join(root, file)] (POSIX). *)
Definition os_path_join (a b : str) : str :=
  if startswith_char 47%N b then b
  else if negb (truthy a) || endswith_char 47%N a then a ++ b
  else a ++ 47%N :: b.

(** The final component of a path: what follows the last [/]. *)
Definition path_name (p : str) : str :=
  slice p (rfind 47%N p + 1) (Z.of_nat (length p)).

(** [Path(p).suffix]. *)
Definition path_suffix (p : str) : str :=
  let name := path_name p in
  let i := rfind PERIOD name in
  if (0 <? i) && (i <? Z.of_nat (length name) - 1)
  then slice name i (Z.of_nat (length name))
  else [].

(** [str.lower] on the letters A-Z.  No other code point has a lower-case
    form containing [.], [t] or [x], so the comparison with [.txt] below
    does not depend on the rest of the Unicode case table. *)
Definition lower (s : str) : str :=
  map (fun c => if (65 <=? c) && (c <=? 90) then c + 32 else c)%N s.

Definition load_text_file (fs : FileSystem) (file_path : str) : Result str :=
  read_text fs file_path.

Definition load_file (fs : FileSystem) (file_path : str) : Result str :=
  let ext := lower (path_suffix file_path) in
  if PyStr.eqb ext (lit ".txt") then load_text_file fs file_path
  else Raise ValueError.

(** [enumerate(l)], counting from [i]. *)
Fixpoint enumerate_from {A : Type} (i : Z) (l : list A) : list (Z * A) :=
  match l with
  | [] => []
  | x :: t => (i, x) :: enumerate_from (i + 1) t
  end.

(** The document objects built from the chunks of one file. *)
Definition file_documents (file path : str) (chunks : list str)
  : list Document :=
  map (fun ic : Z * str =>
         {| content := snd ic;
            metadata := Some {| source := file;
                                chunk_index := fst ic;
                                total_chunks := Z.of_nat (length chunks);
                                file_path := path |} |})
      (enumerate_from 0 chunks).

(** The state of the two nested [for] loops of [process_directory]. *)
Record dir_state : Type := mk_dir_state
  { documents : list Document;
    processed_files : Z }.

(** The body of the inner loop, for one file name. *)
Definition process_file (fuel : nat) (self : t) (fs : FileSystem)
    (root file : str) (st : dir_state) : option dir_state :=
  let path := os_path_join root file in
  if startswith_char PERIOD file then Some st
  else
    match load_file fs path with
    | Raise _ => Some st
    | Ok text =>
        if negb (truthy (strip text)) then Some st
        else
          match chunk_text fuel self text with
          | None => None
          | Some chunks =>
              Some {| documents :=
                        documents st ++ file_documents file path chunks;
                      processed_files := processed_files st + 1 |}
          end
    end.

Fixpoint process_files (fuel : nat) (self : t) (fs : FileSystem)
    (root : str) (files : list str) (st : dir_state) : option dir_state :=
  match files with
  | [] => Some st
  | file :: rest =>
      match process_file fuel self fs root file st with
      | None => None
      | Some st' => process_files fuel self fs root rest st'
      end
  end.

Fixpoint process_walk (fuel : nat) (self : t) (fs : FileSystem)
    (w : list (str * list str * list str)) (st : dir_state)
  : option dir_state :=
  match w with
  | [] => Some st
  | (root, _, files) :: rest =>
      match process_files fuel self fs root files st with
      | None => None
      | Some st' => process_walk fuel self fs rest st'
      end
  end.

Definition process_directory (fuel : nat) (self : t) (fs : FileSystem)
    (directory : str) : option (Result (list Document)) :=
  if negb (path_exists fs directory) then Some (Raise FileNotFoundError)
  else
    match process_walk fuel self fs (walk fs directory)
            {| documents := []; processed_files := 0 |} with
    | None => None
    | Some st => Some (Ok (documents st))
    end.

End DocumentProcessor.

(** ** vector_store.py

    The ChromaDB collection is a list of entries in insertion order.  The
    embedding model, the distance of the collection and the largest batch
    that the ChromaDB client takes in one call are parameters:
    [encode s] is [None] when [SentenceTransformer.encode] raises,
    [closer q a b] tells that [a] is at most as far from [q] as [b], and
    [max_batch_size] is the client's [get_max_batch_size()]. *)

Module VectorStore.

Section Store.

Variable Embedding : Type.
Variable encode : str -> option Embedding.
Variable closer : Embedding -> Embedding -> Embedding -> bool.
Variable max_batch_size : Z.

Record Entry : Type := mk_entry
  { id : str;
    embedding : Embedding;
    document : str;
    entry_metadata : option Metadata }.

Definition Collection : Type := list Entry.

Record t : Type := mk
  { collection : Collection }.

(** *** The collection *)

Definition collection_count (c : Collection) : Z := Z.of_nat (length c).

Fixpoint distinct (l : list str) : bool :=
  match l with
  | [] => true
  | x :: r => negb (existsb (PyStr.eqb x) r) && distinct r
  end.

(** The metadata passed for a document without one is the empty
    dictionary. *)
Definition no_metadata (e : Entry) : bool :=
  match entry_metadata e with
  | None => true
  | Some _ => false
  end.

Definition present (c : Collection) (e : Entry) : bool :=
  existsb (PyStr.eqb (id e)) (map id c).

(** [collection.add]: an id that repeats in the batch, an empty metadata
    dictionary or a batch above the client's max batch size raise, and
    then nothing is added; an entry whose id is present already is
    skipped. *)
Definition collection_add (c : Collection) (batch : list Entry)
  : Result Collection :=
  if negb (distinct (map id batch)) then Raise DuplicateIDError
  else if existsb no_metadata batch then Raise ValueError
  else if max_batch_size <? Z.of_nat (length batch) then Raise ValueError
  else Ok (c ++ filter (fun e => negb (present c e)) batch).

Fixpoint insert_nearest (q : Embedding) (e : Entry) (l : list Entry)
  : list Entry :=
  match l with
  | [] => [e]
  | x :: r =>
      if closer q (embedding e) (embedding x) then e :: l
      else x :: insert_nearest q e r
  end.

(** Entries by ascending distance to [q]; among equals the one inserted
    earlier comes first. *)
Definition nearest_first (q : Embedding) (c : Collection) : list Entry :=
  fold_right (insert_nearest q) [] c.

(** The ['documents'] field of [collection.query] for one query
    embedding: one inner list. *)
Definition collection_query (c : Collection) (q : Embedding) (n_results : Z)
  : Result (list (list str)) :=
  if n_results <=? 0 then Raise ValueError
  else Ok [map document (firstn (Z.to_nat n_results) (nearest_first q c))].

(** *** The store *)

Definition empty : t := {| collection := [] |}.

Definition count (self : t) : Z := collection_count (collection self).

(** [f"doc_{n}"]. *)
Definition doc_id (n : Z) : str :=
  lit ("doc_" ++ NilEmpty.string_of_int (Z.to_int n)).

(** The [for] loop of [add_documents]; its four lists are kept as one
    list of entries.  [n] is [self.collection.count()], [i] the index. *)
Fixpoint embed_batch (n i : Z) (docs : list Document) : Result (list Entry) :=
  match docs with
  | [] => Ok []
  | doc :: rest =>
      match encode (content doc) with
      | None => Raise EmbeddingError
      | Some v =>
          match embed_batch n (i + 1) rest with
          | Raise e => Raise e
          | Ok es =>
              Ok ({| id := doc_id (n + i);
                     embedding := v;
                     document := content doc;
                     entry_metadata := metadata doc |} :: es)
          end
      end
  end.

Definition add_documents (self : t) (docs : list Document) : Result unit * t :=
  match docs with
  | [] => (Ok tt, self)
  | _ :: _ =>
      match embed_batch (count self) 0 docs with
      | Raise e => (Raise e, self)
      | Ok batch =>
          match collection_add (collection self) batch with
          | Raise e => (Raise e, self)
          | Ok c => (Ok tt, {| collection := c |})
          end
      end
  end.

Definition search (self : t) (query : str) (top_k : Z) : Result (list str) :=
  if count self =? 0 then Ok []
  else
    match encode query with
    | None => Raise EmbeddingError
    | Some q =>
        match collection_query (collection self) q
                (Z.min top_k (count self)) with
        | Raise e => Raise e
        | Ok docs =>
            match docs with
            | relevant_docs :: _ => Ok relevant_docs
            | [] => Ok []
            end
        end
    end.

Definition clear (self : t) : t := {| collection := [] |}.

(** *** Sequences of calls *)

Inductive call : Type :=
| AddDocuments (docs : list Document)
| Search (query : str) (top_k : Z)
| Clear.

Definition run_call (self : t) (c : call) : t :=
  match c with
  | AddDocuments docs => snd (add_documents self docs)
  | Search _ _ => self
  | Clear => clear self
  end.

Definition run (calls : list call) : t := fold_left run_call calls empty.

End Store.

Arguments id {Embedding} _.
Arguments embedding {Embedding} _.
Arguments document {Embedding} _.
Arguments entry_metadata {Embedding} _.
Arguments collection {Embedding} _.
Arguments count {Embedding} _.
Arguments clear {Embedding} _.
Arguments empty {Embedding}.
Arguments no_metadata {Embedding} _.
Arguments present {Embedding} _ _.
Arguments collection_add {Embedding} _ _ _.
Arguments nearest_first {Embedding} _ _ _.
Arguments insert_nearest {Embedding} _ _ _ _.
Arguments collection_query {Embedding} _ _ _ _.
Arguments embed_batch {Embedding} _ _ _ _.
Arguments add_documents {Embedding} _ _ _ _.
Arguments search {Embedding} _ _ _ _ _.
Arguments run_call {Embedding} _ _ _ _.
Arguments run {Embedding} _ _ _.
Arguments collection_count {Embedding} _.

End VectorStore.

(** ** The chunker in the words of the specification *)

Module ChunkerSpec.
Import DocumentProcessor.

Definition is_boundary (c : char) : bool :=
  ((c =? PERIOD) || (c =? NEWLINE) || (c =? SPACE))%N.

(** [bp] is the last position of [w] holding a boundary character, or
    [-1] when [w] has none. *)
Definition rightmost_boundary (w : str) (bp : Z) : Prop :=
  (bp = -1 \/
   (0 <= bp /\
    exists c, nth_error w (Z.to_nat bp) = Some c /\ is_boundary c = true)) /\
  forall j c, bp < Z.of_nat j -> nth_error w j = Some c ->
              is_boundary c = false.

(** The break point read as a priority: the last period when the window
    has one, otherwise the last newline, otherwise the last space. *)
Definition priority_break_point (w : str) : Z :=
  if 0 <=? rfind PERIOD w then rfind PERIOD w
  else if 0 <=? rfind NEWLINE w then rfind NEWLINE w
  else rfind SPACE w.

(** The window of one iteration with the break point chosen by
    priority. *)
Definition priority_window (self : t) (text : str) (start : Z) : str * Z :=
  let text_length := Z.of_nat (length text) in
  let end_ := start + chunk_size self in
  let chunk := slice text start end_ in
  if end_ <? text_length then
    let bp := priority_break_point chunk in
    if beyond_half self bp
    then (slice chunk 0 (bp + 1), start + bp + 1)
    else (chunk, end_)
  else (chunk, end_).

(** Appending a chunk when it is not empty. *)
Definition emit (chunks : list str) (chunk : str) : list str :=
  if truthy chunk then chunks ++ [chunk] else chunks.

(** Position [p] of [text] lies in a slice whose stripped form is one of
    [chunks]. *)
Definition covered (text : str) (chunks : list str) (p : nat) : Prop :=
  exists a b, 0 <= a <= Z.of_nat p /\ Z.of_nat p < b /\
              In (strip (slice text a b)) chunks.

(** The invariant of the scan: every non-blank position to the left of a
    frontier [F] that the start has not passed is covered.  The start can
    only be negative when more than half of [max_size] is overlapped, and
    then the frontier is already beyond half of [max_size]. *)
Definition scan_invariant (self : t) (text : str) (st : loop_state) : Prop :=
  exists F,
    start st <= F /\
    (start st < 0 ->
     chunk_size self < 2 * chunk_overlap self /\ chunk_size self < 2 * F) /\
    forall p c, Z.of_nat p < F -> nth_error text p = Some c ->
                isspace c = false -> covered text (chunks st) p.

End ChunkerSpec.

(** ** The ingestion in the words of the specification *)

Module IngestionSpec.
Import DocumentProcessor.

Definition doc_chunk_index (d : Document) : option Z :=
  option_map chunk_index (metadata d).

Definition doc_total_chunks (d : Document) : option Z :=
  option_map total_chunks (metadata d).

(** The documents of one file: every one carries the number of documents
    as [total_chunks], and the [chunk_index] values are 0, 1, ... in
    order. *)
Definition well_numbered (b : list Document) : Prop :=
  map doc_chunk_index b
  = map (fun i => Some (Z.of_nat i)) (seq 0 (length b)) /\
  Forall (fun d => doc_total_chunks d = Some (Z.of_nat (length b))) b.

(** [b] are documents of the file [file] found under [root]. *)
Definition block_of (rf : str * str) (b : list Document) : Prop :=
  well_numbered b /\
  Forall (fun d => option_map source (metadata d) = Some (snd rf) /\
                   option_map file_path (metadata d)
                   = Some (os_path_join (fst rf) (snd rf))) b.

(** The files of a walk, each with its directory, in the order of the
    two loops. *)
Definition walked_files (w : list (str * list str * list str))
  : list (str * str) :=
  flat_map (fun e => map (pair (fst (fst e))) (snd e)) w.

End IngestionSpec.

(** ** The index in the words of the specification *)

Module IndexSpec.

Section Counter.

Variable Embedding : Type.
Variable encode : str -> option Embedding.
Variable max_batch_size : Z.

Definition embeds (d : Document) : bool :=
  match encode (content d) with Some _ => true | None => false end.

Definition has_metadata (d : Document) : bool :=
  match metadata d with Some _ => true | None => false end.

(** A batch that [add] accepts: every embedding is computed, every
    document carries metadata and the batch is not above the client's max
    batch size. *)
Definition accepted (docs : list Document) : bool :=
  forallb embeds docs && forallb has_metadata docs
  && (Z.of_nat (length docs) <=? max_batch_size).

(** The number of entries inserted by one call that follows [n]
    insertions since the last [clear]: a batch counts when [add] accepts
    it. *)
Definition count_call (n : Z) (c : VectorStore.call) : Z :=
  match c with
  | VectorStore.AddDocuments docs =>
      if accepted docs then n + Z.of_nat (length docs) else n
  | VectorStore.Search _ _ => n
  | VectorStore.Clear => 0
  end.

(** The cumulative number of entries inserted since the last [clear]. *)
Definition inserted_since_clear (calls : list VectorStore.call) : Z :=
  fold_left count_call calls 0.

(** The ids of a collection of [n] entries filled by [add_documents]. *)
Definition ids_upto (n : nat) : list str :=
  map (fun k => VectorStore.doc_id (Z.of_nat k)) (seq 0 n).

Definition ids_in_order (self : VectorStore.t Embedding) : Prop :=
  map VectorStore.id (VectorStore.collection self)
  = ids_upto (length (VectorStore.collection self)).

End Counter.

Arguments embeds {Embedding} _ _.
Arguments accepted {Embedding} _ _ _.
Arguments count_call {Embedding} _ _ _ _.
Arguments inserted_since_clear {Embedding} _ _ _.
Arguments ids_in_order {Embedding} _.

End IndexSpec.

(** ** Sample inputs *)

Module Samples.
Import DocumentProcessor.

Definition sentences_cfg : t := {| chunk_size := 20; chunk_overlap := 5 |}.
Definition sentences : str :=
  lit "Sentence one. Sentence two. Sentence three.".

Definition stall_cfg : t := {| chunk_size := 10; chunk_overlap := 7 |}.
Definition stall_text : str := lit "aaaaaa.aaaaaaaaaaaa".

Definition two_marks_cfg : t := {| chunk_size := 10; chunk_overlap := 2 |}.
Definition two_marks : str := lit "aaaaaa.a aaaaaaaaa".

Definition short_cfg : t := {| chunk_size := 10; chunk_overlap := 5 |}.
Definition short_text : str := lit "abcdefgh".

Definition no_overlap_cfg : t := {| chunk_size := 10; chunk_overlap := 0 |}.

(** An embedding model on the integers: the length of the text, failing
    on the text [bad]; the distance is the absolute difference. *)
Definition length_encode (s : str) : option Z :=
  if PyStr.eqb s (lit "bad") then None else Some (Z.of_nat (length s)).

Definition length_closer (q a b : Z) : bool := Z.abs (a - q) <=? Z.abs (b - q).

(** The largest batch of a client over the usual SQLite build. *)
Definition max_batch : Z := 5461.

(** A document as [process_directory] builds it for a file of one
    chunk. *)
Definition plain (s : string) : Document :=
  {| content := lit s;
     metadata := Some {| source := lit "notes.txt";
                         chunk_index := 0;
                         total_chunks := 1;
                         file_path := lit "docs/notes.txt" |} |}.


(** One document more than the client takes in one call. *)
Definition big_batch : list Document :=
  repeat (plain "alpha") (Z.to_nat 5462).

Definition one_entry : VectorStore.t Z :=
  VectorStore.run length_encode max_batch [VectorStore.AddDocuments [plain "first"]].

Definition two_entries : VectorStore.t Z :=
  VectorStore.run length_encode max_batch
    [VectorStore.AddDocuments [plain "alpha"; plain "be"]].

(** A batch whose entry at position 1 cannot be embedded. *)
Definition failing_batch : list Document :=
  [plain "alpha"; plain "bad"; plain "gamma"].

Definition history : list VectorStore.call :=
  [VectorStore.AddDocuments [plain "first"];
   VectorStore.Clear;
   VectorStore.AddDocuments failing_batch;
   VectorStore.AddDocuments [plain "alpha"];
   VectorStore.Search (lit "abc") 3].

(** A directory [docs] with three text files, one of them blank, and a
    picture. *)
Definition docs_fs : FileSystem :=
  {| path_exists := fun p => PyStr.eqb p (lit "docs");
     walk := fun p =>
       if PyStr.eqb p (lit "docs")
       then [(lit "docs", [],
              [lit "a.txt"; lit "blank.txt"; lit "logo.png"; lit "b.TXT"])]
       else [];
     read_text := fun p =>
       if PyStr.eqb p (lit "docs/a.txt")
       then Ok (lit "Sentence one. Sentence two. Sentence three.")
       else if PyStr.eqb p (lit "docs/blank.txt")
       then Ok [SPACE; NEWLINE; 9%N]
       else if PyStr.eqb p (lit "docs/b.TXT")
       then Ok (lit "Short note.")
       else Raise OSError |}.

End Samples.

(** ** config.py *)

Module Config.

Record Settings : Type := mk
  { app_name : str;
    debug : bool;
    openai_api_key : str;
    openai_model : str;
    vector_store_path : str;
    embedding_model : str;
    chunk_size : Z;
    chunk_overlap : Z;
    top_k_results : Z;
    cors_origins : list str;
    data_dir : str }.

(** The settings when only the API key comes from the environment. *)
Definition defaults (api_key : str) : Settings :=
  {| app_name := lit "MEU Chatbot API";
     debug := true;
     openai_api_key := api_key;
     openai_model := lit "gpt-4o-mini";
     vector_store_path := lit "./data/vector_store";
     embedding_model := lit "all-MiniLM-L6-v2";
     chunk_size := 500;
     chunk_overlap := 50;
     top_k_results := 3;
     cors_origins := [lit "http://localhost:3000"; lit "http://localhost:3001"];
     data_dir := lit "./data/client_docs" |}.

End Config.

(** ** Errors above the vector store

    [Inner e] is an exception of the document processor or the vector
    store passing through; [AttributeError] is the read of an attribute
    that [initialize] has not set yet; [GenerationError] is the
    [Exception] that [generate_response] raises for any failure of the
    API call. *)

Inductive error : Type :=
| Inner (e : exn)
| AttributeError
| GenerationError.

Inductive Outcome (A : Type) : Type :=
| Returned (a : A)
| Raised (e : error).
Arguments Returned {A} a.
Arguments Raised {A} e.

(** ** llm_handler.py

    The chat completion API is a parameter: [complete model system user]
    is the content of the first choice, or [None] when the call or the
    reading of the answer raises. *)

Module LLMHandler.

Record t : Type := mk
  { model : str }.

Definition NO_CONTEXT : str := lit "No relevant context found in documents.".

(** [sep.join(l)]. *)
Fixpoint join (sep : str) (l : list str) : str :=
  match l with
  | [] => []
  | x :: r =>
      match r with
      | [] => x
      | _ :: _ => x ++ sep ++ join sep r
      end
  end.

Definition context_text (context : list str) : str :=
  match context with
  | [] => NO_CONTEXT
  | _ :: _ => join [NEWLINE; NEWLINE] context
  end.

Definition system_message : str :=
  lit "You are a helpful AI assistant for Modern Education University (MEU). "
  ++ [NEWLINE]
  ++ lit "Your role is to provide accurate, friendly, and helpful information about MEU's courses, mission, and programs."
  ++ [NEWLINE; NEWLINE]
  ++ lit "Guidelines:" ++ [NEWLINE]
  ++ lit "- Answer based on the provided context" ++ [NEWLINE]
  ++ lit "- Be concise but informative" ++ [NEWLINE]
  ++ lit "- If the context doesn't contain the answer, politely say so"
  ++ [NEWLINE]
  ++ lit "- Maintain a professional yet friendly tone" ++ [NEWLINE]
  ++ lit "- Focus on MEU's certificate courses in tourism".

Definition user_message (query : str) (context : list str) : str :=
  lit "Context from MEU documents:" ++ [NEWLINE]
  ++ context_text context ++ [NEWLINE; NEWLINE]
  ++ lit "User Question: " ++ query ++ [NEWLINE; NEWLINE]
  ++ lit "Please provide a helpful answer based on the context above.".

Section Api.

Variable complete : str -> str -> str -> option str.

Definition generate_response (self : t) (query : str) (context : list str)
  : Outcome str :=
  match complete (model self) system_message (user_message query context) with
  | Some answer => Returned answer
  | None => Raised GenerationError
  end.

End Api.

End LLMHandler.

(** ** services/chatbot.py

    The attributes that [initialize] sets are [None] until then, and
    reading one of them raises [AttributeError].  The constructors of the
    embedding model, of the ChromaDB client and of the OpenAI client are
    taken to succeed; [persisted] is the collection that the client holds
    under the name of the store, if any. *)

Module ChatbotService.

Section Service.

Variable Embedding : Type.
Variable encode : str -> option Embedding.
Variable closer : Embedding -> Embedding -> Embedding -> bool.
Variable max_batch_size : Z.
Variable complete : str -> str -> str -> option str.
Variable fs : FileSystem.
Variable settings : Config.Settings.

Record t : Type := mk
  { initialized : bool;
    vector_store : option (VectorStore.t Embedding);
    llm_handler : option LLMHandler.t;
    document_processor : option DocumentProcessor.t;
    top_k : option Z }.

(** The instance that [__new__] creates. *)
Definition new : t :=
  {| initialized := false;
     vector_store := None;
     llm_handler := None;
     document_processor := None;
     top_k := None |}.

Definition set_vector_store (self : t) (vs : VectorStore.t Embedding) : t :=
  {| initialized := initialized self;
     vector_store := Some vs;
     llm_handler := llm_handler self;
     document_processor := document_processor self;
     top_k := top_k self |}.

(** [VectorStore.__init__]: get the collection or create it. *)
Definition open_vector_store (persisted : option (VectorStore.Collection Embedding))
  : VectorStore.t Embedding :=
  match persisted with
  | Some c => {| VectorStore.collection := c |}
  | None => {| VectorStore.collection := [] |}
  end.

Definition load_documents (fuel : nat) (self : t) (data_dir : str)
  : option (Outcome unit * t) :=
  match document_processor self with
  | None => Some (Raised AttributeError, self)
  | Some dp =>
      match DocumentProcessor.process_directory fuel dp fs data_dir with
      | None => None
      | Some (Raise e) => Some (Raised (Inner e), self)
      | Some (Ok documents) =>
          match documents with
          | [] => Some (Returned tt, self)
          | _ :: _ =>
              match vector_store self with
              | None => Some (Raised AttributeError, self)
              | Some vs =>
                  match VectorStore.add_documents encode max_batch_size vs documents with
                  | (Ok _, vs') => Some (Returned tt, set_vector_store self vs')
                  | (Raise e, vs') =>
                      Some (Raised (Inner e), set_vector_store self vs')
                  end
              end
          end
      end
  end.

Definition initialize (fuel : nat)
    (persisted : option (VectorStore.Collection Embedding)) (self : t)
  : option (Outcome unit * t) :=
  if initialized self then Some (Returned tt, self)
  else
    let vs := open_vector_store persisted in
    let self1 :=
      {| initialized := false;
         vector_store := Some vs;
         llm_handler :=
           Some {| LLMHandler.model := Config.openai_model settings |};
         document_processor :=
           Some {| DocumentProcessor.chunk_size := Config.chunk_size settings;
                   DocumentProcessor.chunk_overlap :=
                     Config.chunk_overlap settings |};
         top_k := top_k self |} in
    let finish (s : t) :=
      {| initialized := true;
         vector_store := vector_store s;
         llm_handler := llm_handler s;
         document_processor := document_processor s;
         top_k := Some (Config.top_k_results settings) |} in
    if VectorStore.count vs =? 0 then
      match load_documents fuel self1 (Config.data_dir settings) with
      | None => None
      | Some (Raised e, s) => Some (Raised e, s)
      | Some (Returned _, s) => Some (Returned tt, finish s)
      end
    else Some (Returned tt, finish self1).

Definition chat (self : t) (message : str) : Outcome str :=
  match vector_store self with
  | None => Raised AttributeError
  | Some vs =>
      match top_k self with
      | None => Raised AttributeError
      | Some k =>
          match VectorStore.search encode closer vs message k with
          | Raise e => Raised (Inner e)
          | Ok context =>
              match llm_handler self with
              | None => Raised AttributeError
              | Some h => LLMHandler.generate_response complete h message context
              end
          end
      end
  end.

Definition reload_documents (fuel : nat) (self : t) (data_dir : str)
  : option (Outcome unit * t) :=
  match vector_store self with
  | None => Some (Raised AttributeError, self)
  | Some vs =>
      load_documents fuel (set_vector_store self (VectorStore.clear vs)) data_dir
  end.

Record Stats : Type := mk_stats
  { stat_document_count : Z;
    stat_model : str;
    stat_embedding_model : str;
    stat_chunk_size : Z;
    stat_top_k : Z }.

Definition get_stats (self : t) : Outcome Stats :=
  match vector_store self with
  | None => Raised AttributeError
  | Some vs =>
      match llm_handler self with
      | None => Raised AttributeError
      | Some h =>
          match top_k self with
          | None => Raised AttributeError
          | Some k =>
              Returned {| stat_document_count := VectorStore.count vs;
                          stat_model := LLMHandler.model h;
                          stat_embedding_model := Config.embedding_model settings;
                          stat_chunk_size := Config.chunk_size settings;
                          stat_top_k := k |}
          end
      end
  end.

End Service.

Arguments initialized {Embedding} _.
Arguments vector_store {Embedding} _.
Arguments llm_handler {Embedding} _.
Arguments document_processor {Embedding} _.
Arguments top_k {Embedding} _.
Arguments new {Embedding}.
Arguments set_vector_store {Embedding} _ _.
Arguments open_vector_store {Embedding} _.
Arguments load_documents {Embedding} _ _ _ _ _ _.
Arguments initialize {Embedding} _ _ _ _ _ _ _.
Arguments chat {Embedding} _ _ _ _ _.
Arguments reload_documents {Embedding} _ _ _ _ _ _.
Arguments get_stats {Embedding} _ _.

End ChatbotService.

(** ** schemas.py and routes.py

    A response is the body returned with status 200 or an HTTP error with
    its status code and detail.  The request model is checked before the
    handler runs; a request that fails the check is answered with 422. *)

Module Routes.

Inductive detail : Type :=
| Message (s : str)
| MessageWithCause (s : str) (e : error)
| Validation.

Inductive Response (A : Type) : Type :=
| Success (body : A)
| HTTPException (status_code : Z) (d : detail).
Arguments Success {A} body.
Arguments HTTPException {A} status_code d.

(** A surrogate code point: a string that holds one is not valid
    Unicode. *)
Definition surrogate (c : char) : bool := ((55296 <=? c) && (c <=? 57343))%N.

(** [ChatRequest]: a message of valid Unicode and of 1 to 1000
    characters. *)
Definition chat_request_valid (message : str) : bool :=
  negb (existsb surrogate message)
  && (1 <=? Z.of_nat (length message)) && (Z.of_nat (length message) <=? 1000).

Record ChatResponse : Type := mk_chat_response
  { status : str;
    response : str }.

Record ReloadResponse : Type := mk_reload_response
  { reload_status : str;
    reload_message : str;
    document_count : Z }.

Definition EMPTY_MESSAGE : str := lit "Message cannot be empty".

Definition CHAT_FAILED : str :=
  lit "An error occurred while processing your message. Please try again.".

Definition INTERNAL_SERVER_ERROR : str := lit "Internal Server Error".

Section Endpoints.

Variable Embedding : Type.
Variable encode : str -> option Embedding.
Variable closer : Embedding -> Embedding -> Embedding -> bool.
Variable max_batch_size : Z.
Variable complete : str -> str -> str -> option str.
Variable fs : FileSystem.
Variable settings : Config.Settings.

(** The body of the [chat] handler. *)
Definition chat_handler (chatbot_service : ChatbotService.t Embedding)
    (message : str) : Response ChatResponse :=
  let user_message := strip message in
  if negb (truthy user_message) then HTTPException 400 (Message EMPTY_MESSAGE)
  else
    match ChatbotService.chat encode closer complete chatbot_service
            user_message with
    | Returned bot_response =>
        Success {| status := lit "success"; response := bot_response |}
    | Raised _ => HTTPException 500 (Message CHAT_FAILED)
    end.

(** [POST /api/chat].  A message that is not valid Unicode is answered
    with a bare 500 before the handler runs; any other message that fails
    the request model is answered with 422. *)
Definition chat (chatbot_service : ChatbotService.t Embedding)
    (message : str) : Response ChatResponse :=
  if existsb surrogate message
  then HTTPException 500 (Message INTERNAL_SERVER_ERROR)
  else if chat_request_valid message
  then chat_handler chatbot_service message
  else HTTPException 422 Validation.

(** [POST /api/reload]. *)
Definition reload_documents (fuel : nat)
    (chatbot_service : ChatbotService.t Embedding)
  : option (Response ReloadResponse * ChatbotService.t Embedding) :=
  let failed e :=
    HTTPException 500 (MessageWithCause (lit "Failed to reload documents: ") e)
  in
  match ChatbotService.reload_documents encode max_batch_size fs fuel chatbot_service
          (Config.data_dir settings) with
  | None => None
  | Some (Raised e, s) => Some (failed e, s)
  | Some (Returned _, s) =>
      match ChatbotService.vector_store s with
      | None => Some (failed AttributeError, s)
      | Some vs =>
          Some (Success {| reload_status := lit "success";
                           reload_message :=
                             lit "Documents reloaded successfully";
                           document_count := VectorStore.count vs |}, s)
      end
  end.

End Endpoints.

Arguments chat_handler {Embedding} _ _ _ _ _.
Arguments chat {Embedding} _ _ _ _ _.
Arguments reload_documents {Embedding} _ _ _ _ _ _.

End Routes.

(** ** Sample service *)

Module ServiceSamples.
Import Samples.

Definition settings : Config.Settings :=
  {| Config.app_name := lit "MEU Chatbot API";
     Config.debug := true;
     Config.openai_api_key := lit "sk-test-key-12345";
     Config.openai_model := lit "gpt-4o-mini";
     Config.vector_store_path := lit "./data/vector_store";
     Config.embedding_model := lit "all-MiniLM-L6-v2";
     Config.chunk_size := 20;
     Config.chunk_overlap := 5;
     Config.top_k_results := 3;
     Config.cors_origins := [];
     Config.data_dir := lit "docs" |}.

(** An API that always gives the same answer. *)
Definition canned (model system user : str) : option str :=
  Some (lit "MEU offers certificate courses in tourism.").

(** A service after [initialize], over the index [two_entries]. *)
Definition ready : ChatbotService.t Z :=
  {| ChatbotService.initialized := true;
     ChatbotService.vector_store := Some two_entries;
     ChatbotService.llm_handler :=
       Some {| LLMHandler.model := lit "gpt-4o-mini" |};
     ChatbotService.document_processor := Some sentences_cfg;
     ChatbotService.top_k := Some 3 |}.

(** A directory whose only file holds a text that [length_encode] cannot
    embed. *)
Definition bad_fs : FileSystem :=
  {| path_exists := fun p => PyStr.eqb p (lit "docs");
     walk := fun p =>
       if PyStr.eqb p (lit "docs") then [(lit "docs", [], [lit "x.txt"])]
       else [];
     read_text := fun p =>
       if PyStr.eqb p (lit "docs/x.txt") then Ok (lit "bad")
       else Raise OSError |}.

(** A file system without the data directory. *)
Definition no_fs : FileSystem :=
  {| path_exists := fun _ => false;
     walk := fun _ => [];
     read_text := fun _ => Raise OSError |}.

End ServiceSamples.

(** ** Shapes of chunks *)

Module Shape.

(** [c] occurs in [text] as a contiguous run of characters. *)
Definition substring (c text : str) : Prop :=
  exists pre post, text = pre ++ c ++ post.

(** [s] is not empty and neither its first nor its last character is
    whitespace. *)
Definition trimmed (s : str) : Prop :=
  option_map isspace (hd_error s) = Some false /\
  option_map isspace (hd_error (rev s)) = Some false.

(** The total number of characters of a list of chunks. *)
Definition total_length (l : list str) : Z :=
  fold_right (fun c n => Z.of_nat (length c) + n) 0 l.

End Shape.

(** * Properties *)

(** ** Strings *)

Section StringFacts.

Lemma lstrip_length (s : str) : (length (lstrip s) <= length s)%nat.
Proof.
  induction s as [|c t IH]; simpl; [lia|].
  destruct (isspace c); simpl; lia.
Qed.

Lemma strip_length (s : str) : (length (strip s) <= length s)%nat.
Proof.
  unfold strip, rstrip. rewrite length_rev.
  etransitivity; [apply lstrip_length|].
  rewrite length_rev. apply lstrip_length.
Qed.

Lemma lstrip_keeps (x : char) (s : str) :
  In x s -> isspace x = false -> In x (lstrip s).
Proof.
  induction s as [|c t IH]; simpl; [tauto|].
  intros [->|Hin] Hx.
  - rewrite Hx. now left.
  - destruct (isspace c); [now apply IH | now right].
Qed.

Lemma strip_keeps (x : char) (s : str) :
  In x s -> isspace x = false -> In x (strip s).
Proof.
  intros Hin Hx. unfold strip, rstrip.
  apply in_rev. rewrite rev_involutive.
  apply lstrip_keeps; [|exact Hx].
  apply in_rev. rewrite rev_involutive.
  now apply lstrip_keeps.
Qed.

Lemma lstrip_all_space (s : str) :
  forallb isspace s = true -> lstrip s = [].
Proof.
  induction s as [|c t IH]; simpl; [reflexivity|].
  intros H. apply andb_prop in H as [Hc Ht]. rewrite Hc. now apply IH.
Qed.

Lemma strip_all_space (s : str) :
  forallb isspace s = true -> strip s = [].
Proof.
  intros H. unfold strip. now rewrite lstrip_all_space.
Qed.

Lemma rfind_range (c : char) (s : str) :
  -1 <= rfind c s < Z.of_nat (length s).
Proof.
  induction s as [|x t IH]; simpl rfind; simpl length; [lia|].
  destruct (0 <=? rfind c t) eqn:E; [lia|].
  destruct (x =? c)%N; lia.
Qed.

Lemma rfind_hit (c : char) (s : str) :
  0 <= rfind c s -> nth_error s (Z.to_nat (rfind c s)) = Some c.
Proof.
  induction s as [|x t IH]; simpl rfind; [lia|].
  destruct (0 <=? rfind c t) eqn:E.
  - intros _. apply Z.leb_le in E.
    replace (Z.to_nat (rfind c t + 1)) with (S (Z.to_nat (rfind c t))) by lia.
    simpl. now apply IH.
  - destruct (x =? c)%N eqn:Ex; [|lia].
    intros _. apply N.eqb_eq in Ex. now subst.
Qed.

Lemma rfind_last (c : char) (s : str) (j : nat) :
  rfind c s < Z.of_nat j -> nth_error s j <> Some c.
Proof.
  revert j. induction s as [|x t IH]; intros j; simpl rfind.
  - intros _. now destruct j.
  - destruct (0 <=? rfind c t) eqn:E.
    + intros Hj. destruct j as [|j]; [apply Z.leb_le in E; lia|].
      simpl. apply IH. lia.
    + apply Z.leb_gt in E.
      destruct j as [|j].
      * destruct (x =? c)%N eqn:Ex; [lia|].
        intros _. simpl. intros [= ->]. now rewrite N.eqb_refl in Ex.
      * intros _. simpl. apply IH. lia.
Qed.

Lemma slice_length (s : str) (a m : Z) :
  0 <= m -> Z.of_nat (length (slice s a (a + m))) <= m.
Proof.
  intros Hm. unfold slice, adjust_index. rewrite length_firstn.
  destruct (a <? 0) eqn:Ea, (a + m <? 0) eqn:Eb; lia.
Qed.

Lemma slice_prefix_length (s : str) (k : Z) :
  Z.of_nat (length (slice s 0 k)) <= Z.of_nat (length s).
Proof.
  unfold slice, adjust_index. rewrite length_firstn, length_skipn.
  destruct (0 <? 0) eqn:E0; [lia|]. lia.
Qed.

(** A slice with non-negative bounds, in terms of [firstn] and [skipn]. *)
Lemma slice_nonneg (s : str) (a b : Z) :
  0 <= a -> 0 <= b ->
  slice s a b = firstn (Z.to_nat (b - a)) (skipn (Z.to_nat a) s).
Proof.
  intros Ha Hb. unfold slice, adjust_index.
  destruct (a <? 0) eqn:Ea; [lia|]. destruct (b <? 0) eqn:Eb; [lia|].
  set (len := Z.of_nat (length s)).
  destruct (Z.le_gt_cases a len) as [Hal|Hal].
  - replace (Z.min a len) with a by lia.
    destruct (Z.le_gt_cases b len) as [Hbl|Hbl].
    + now replace (Z.min b len) with b by lia.
    + replace (Z.min b len) with len by lia.
      rewrite !firstn_all2; try reflexivity;
        rewrite length_skipn; subst len; lia.
  - rewrite !skipn_all2 by (subst len; lia). now rewrite !firstn_nil.
Qed.

Lemma slice_whole (s : str) (b : Z) :
  Z.of_nat (length s) <= b -> slice s 0 b = s.
Proof.
  intros Hb. rewrite slice_nonneg by lia. simpl skipn.
  apply firstn_all2. lia.
Qed.

Lemma slice_slice_prefix (s : str) (a b k : Z) :
  0 <= a -> a <= b -> 0 <= k -> k <= b - a ->
  slice (slice s a b) 0 k = slice s a (a + k).
Proof.
  intros Ha Hb Hk Hkb.
  rewrite (slice_nonneg (slice s a b)) by lia.
  rewrite !slice_nonneg by lia. simpl skipn.
  rewrite firstn_firstn. f_equal. lia.
Qed.

Lemma slice_covers (s : str) (a b : Z) (p : nat) (c : char) :
  0 <= a -> a <= Z.of_nat p < b -> nth_error s p = Some c ->
  In c (slice s a b).
Proof.
  intros Ha Hp Hc. rewrite slice_nonneg by lia.
  apply (nth_error_In _ (p - Z.to_nat a)).
  rewrite nth_error_firstn.
  destruct (Nat.ltb_spec (p - Z.to_nat a) (Z.to_nat (b - a))); [|lia].
  rewrite nth_error_skipn. rewrite <- Hc. f_equal. lia.
Qed.

End StringFacts.

(** ** The chunker *)

Module ChunkerFacts.
Import DocumentProcessor.

Lemma break_point_range (chunk : str) :
  -1 <= break_point chunk < Z.of_nat (length chunk).
Proof.
  unfold break_point.
  pose proof (rfind_range PERIOD chunk).
  pose proof (rfind_range NEWLINE chunk).
  pose proof (rfind_range SPACE chunk). lia.
Qed.

Section OneText.

Variable self : t.
Variable text : str.

Let m := chunk_size self.
Let o := chunk_overlap self.
Let len := Z.of_nat (length text).

(** The window never extends past [start + chunk_size], and a truncated
    window still reaches beyond half of [chunk_size]. *)
Lemma window_end (s : Z) :
  0 <= m ->
  let e := snd (window self text s) in
  e <= s + m /\ (e = s + m \/ (e < len /\ m + 2 < 2 * (e - s))).
Proof.
  intros Hm. unfold window. fold m. fold len.
  pose proof (break_point_range (slice text s (s + m))) as Hbp.
  pose proof (slice_length text s m Hm) as Hl.
  destruct (s + m <? len) eqn:E; [|cbn [snd]; lia].
  unfold beyond_half. fold m.
  destruct (m <? 2 * break_point (slice text s (s + m))) eqn:B; cbn [snd]; [|lia].
  apply Z.ltb_lt in B. apply Z.ltb_lt in E. lia.
Qed.

Lemma window_chunk_length (s : Z) :
  0 <= m -> Z.of_nat (length (fst (window self text s))) <= m.
Proof.
  intros Hm. unfold window. fold m. fold len.
  pose proof (slice_length text s m Hm) as Hl.
  destruct (s + m <? len); [|exact Hl].
  destruct (beyond_half self _); [|exact Hl]. cbn [fst].
  pose proof (slice_prefix_length (slice text s (s + m))
                (break_point (slice text s (s + m)) + 1)). lia.
Qed.

(** From a non-negative start the window is the slice of the text between
    [start] and [end]. *)
Lemma window_is_slice (s : Z) :
  0 <= s -> 0 <= m ->
  fst (window self text s) = slice text s (snd (window self text s)).
Proof.
  intros Hs Hm. unfold window. fold m. fold len.
  pose proof (break_point_range (slice text s (s + m))) as Hbp.
  pose proof (slice_length text s m Hm) as Hl.
  destruct (s + m <? len); [|reflexivity].
  destruct (beyond_half self _); [|reflexivity]. cbn [fst snd].
  rewrite slice_slice_prefix by lia. f_equal. lia.
Qed.

Lemma loop_body_start (st : loop_state) :
  start (loop_body self text st) = snd (window self text (start st)) - o.
Proof.
  unfold loop_body. now destruct (window self text (start st)).
Qed.

Lemma loop_body_chunks (st : loop_state) :
  let chunk := strip (fst (window self text (start st))) in
  chunks (loop_body self text st)
  = if truthy chunk then chunks st ++ [chunk] else chunks st.
Proof.
  unfold loop_body. now destruct (window self text (start st)).
Qed.

Lemma chunk_loop_done (fuel : nat) (st : loop_state) :
  len <= start st -> chunk_loop fuel self text st = Some (chunks st).
Proof.
  intros H. destruct fuel; simpl; fold len;
    destruct (start st <? len) eqn:E; try reflexivity;
    apply Z.ltb_lt in E; lia.
Qed.

Lemma chunk_loop_step (fuel : nat) (st : loop_state) :
  start st < len ->
  chunk_loop (S fuel) self text st
  = chunk_loop fuel self text (loop_body self text st).
Proof.
  intros H. simpl. fold len.
  destruct (start st <? len) eqn:E; [reflexivity|].
  apply Z.ltb_ge in E. lia.
Qed.

Lemma chunk_loop_out_of_fuel (st : loop_state) :
  start st < len -> chunk_loop 0 self text st = None.
Proof.
  intros H. simpl. fold len.
  destruct (start st <? len) eqn:E; [reflexivity|].
  apply Z.ltb_ge in E. lia.
Qed.

(** A property of the loop state that every iteration preserves holds in
    the state the loop returns from. *)
Lemma chunk_loop_invariant (P : loop_state -> Prop) :
  (forall st, P st -> start st < len -> P (loop_body self text st)) ->
  forall fuel st r,
    P st -> chunk_loop fuel self text st = Some r ->
    exists st', P st' /\ len <= start st' /\ chunks st' = r.
Proof.
  intros Hstep. induction fuel as [|fuel IH]; intros st r HP Hr.
  - destruct (Z.lt_ge_cases (start st) len) as [Hlt|Hge].
    + now rewrite chunk_loop_out_of_fuel in Hr.
    + rewrite chunk_loop_done in Hr by exact Hge.
      injection Hr as <-. now exists st.
  - destruct (Z.lt_ge_cases (start st) len) as [Hlt|Hge].
    + rewrite chunk_loop_step in Hr by exact Hlt.
      apply (IH _ _ (Hstep _ HP Hlt) Hr).
    + rewrite chunk_loop_done in Hr by exact Hge.
      injection Hr as <-. now exists st.
Qed.

(** More fuel does not change a result. *)
Lemma chunk_loop_more_fuel (fuel fuel' : nat) (st : loop_state) (r : list str) :
  (fuel <= fuel')%nat ->
  chunk_loop fuel self text st = Some r ->
  chunk_loop fuel' self text st = Some r.
Proof.
  revert fuel' st. induction fuel as [|fuel IH]; intros fuel' st Hle Hr.
  - destruct (Z.lt_ge_cases (start st) len) as [Hlt|Hge].
    + now rewrite chunk_loop_out_of_fuel in Hr.
    + rewrite chunk_loop_done in * by exact Hge. exact Hr.
  - destruct (Z.lt_ge_cases (start st) len) as [Hlt|Hge].
    + destruct fuel' as [|fuel']; [lia|].
      rewrite chunk_loop_step in * by exact Hlt.
      apply IH; [lia | exact Hr].
    + rewrite chunk_loop_done in * by exact Hge. exact Hr.
Qed.

(** Forward progress: with [overlap < max_size] and
    [2 * overlap <= max_size + 2] every iteration from a non-negative
    start moves the start to the right. *)
Lemma loop_body_progress (st : loop_state) :
  0 < m -> o < m -> 2 * o <= m + 2 -> 0 <= start st ->
  start st < start (loop_body self text st).
Proof.
  intros Hm Ho Ho2 Hs. rewrite loop_body_start.
  pose proof (window_end (start st) ltac:(lia)) as [_ H]. lia.
Qed.

Lemma chunk_loop_terminates (fuel : nat) (st : loop_state) :
  0 < m -> o < m -> 2 * o <= m + 2 -> 0 <= start st ->
  len - start st <= Z.of_nat fuel ->
  exists r, chunk_loop fuel self text st = Some r.
Proof.
  intros Hm Ho Ho2. revert st.
  induction fuel as [|fuel IH]; intros st Hs Hf.
  - exists (chunks st). apply chunk_loop_done. lia.
  - destruct (Z.lt_ge_cases (start st) len) as [Hlt|Hge].
    + rewrite chunk_loop_step by exact Hlt.
      pose proof (loop_body_progress st Hm Ho Ho2 Hs).
      apply IH; lia.
    + exists (chunks st). now apply chunk_loop_done.
Qed.

(** [chunk_text] returns for every text when the overlap is below
    [max_size] and at most half of it plus one; [len(text)] iterations
    are enough. *)
Theorem chunk_text_terminates :
  0 < m -> o < m -> 2 * o <= m + 2 ->
  exists r, chunk_text (length text) self text = Some r.
Proof.
  intros Hm Ho Ho2. unfold chunk_text.
  apply chunk_loop_terminates; simpl; try assumption; lia.
Qed.

End OneText.

End ChunkerFacts.

(** ** Claims about [chunk_text] *)

Module Chunker.
Import DocumentProcessor ChunkerSpec ChunkerFacts Samples.

(** C1, at a configuration with [0 <= overlap < max_size]: with
    [chunk_size = 10] and [chunk_overlap = 7] the first window of
    [stall_text] is cut after the period at position 6, so [end = 7] and the
    start goes back to [7 - 7 = 0]; every iteration starts at 0 again and
    [chunk_text] returns for no amount of fuel. *)
Theorem chunk_text_stalls :
  0 < chunk_size stall_cfg /\
  0 <= chunk_overlap stall_cfg < chunk_size stall_cfg /\
  forall fuel, chunk_text fuel stall_cfg stall_text = None.
Proof.
  split; [reflexivity|]. split; [split; [discriminate | reflexivity]|].
  assert (Hback : forall cs,
             start (loop_body stall_cfg stall_text (mk_state 0 cs)) = 0).
  { intros cs. rewrite loop_body_start. reflexivity. }
  assert (Hloop : forall fuel st,
             start st = 0 -> chunk_loop fuel stall_cfg stall_text st = None).
  { induction fuel as [|fuel IH]; intros [s cs] Hs; simpl in Hs; subst s.
    - apply chunk_loop_out_of_fuel. reflexivity.
    - rewrite chunk_loop_step by reflexivity. apply IH, Hback. }
  intros fuel. apply Hloop. reflexivity.
Qed.

(** C9: with [max_size > 0], every chunk that [chunk_text] returns has at
    most [max_size] characters, whatever the overlap and whether or not the
    window holds a boundary character. *)
Theorem chunk_text_chunk_length (self : t) (text : str) (fuel : nat)
    (r : list str) :
  0 < chunk_size self ->
  chunk_text fuel self text = Some r ->
  Forall (fun c => Z.of_nat (length c) <= chunk_size self) r.
Proof.
  intros Hm Hr. unfold chunk_text in Hr.
  apply (chunk_loop_invariant self text
           (fun st => Forall (fun c => Z.of_nat (length c) <= chunk_size self)
                             (chunks st))) in Hr.
  - destruct Hr as (st' & HP & _ & <-). exact HP.
  - intros st HP _. rewrite loop_body_chunks.
    destruct (truthy _); [|exact HP].
    apply Forall_app. split; [exact HP|].
    constructor; [|constructor].
    pose proof (strip_length (fst (window self text (start st)))).
    pose proof (window_chunk_length self text (start st) ltac:(lia)). lia.
  - constructor.
Qed.

Lemma chunk_text_chunk_length_witness :
  0 < chunk_size no_overlap_cfg /\
  chunk_text 5 no_overlap_cfg (lit "aaaaaaaaaaaaaaaaaaaaaaaaa")
  = Some [lit "aaaaaaaaaa"; lit "aaaaaaaaaa"; lit "aaaaa"] /\
  Forall (fun c => Z.of_nat (length c) <= chunk_size no_overlap_cfg)
         [lit "aaaaaaaaaa"; lit "aaaaaaaaaa"; lit "aaaaa"].
Proof.
  split; [reflexivity|]. split; [reflexivity|].
  apply (chunk_text_chunk_length no_overlap_cfg
           (lit "aaaaaaaaaaaaaaaaaaaaaaaaa") 5); reflexivity.
Defined.

Lemma break_point_rightmost (w : str) : rightmost_boundary w (break_point w).
Proof.
  unfold rightmost_boundary, break_point.
  set (a := rfind PERIOD w). set (b := rfind NEWLINE w).
  set (c := rfind SPACE w).
  pose proof (rfind_range PERIOD w) as Ha. fold a in Ha.
  pose proof (rfind_range NEWLINE w) as Hb. fold b in Hb.
  pose proof (rfind_range SPACE w) as Hc. fold c in Hc.
  split.
  - destruct (Z.eq_dec (Z.max (Z.max a b) c) (-1)) as [E|E]; [now left|].
    right. split; [lia|].
    destruct (Z.eq_dec (Z.max (Z.max a b) c) a) as [Ea|Na].
    { exists PERIOD. split; [|reflexivity].
      rewrite Ea. apply rfind_hit. fold a. lia. }
    destruct (Z.eq_dec (Z.max (Z.max a b) c) b) as [Eb|Nb].
    { exists NEWLINE. split; [|reflexivity].
      rewrite Eb. apply rfind_hit. fold b. lia. }
    assert (Ec : Z.max (Z.max a b) c = c) by lia.
    exists SPACE. split; [|reflexivity].
    rewrite Ec. apply rfind_hit. fold c. lia.
  - intros j x Hj Hx. unfold is_boundary.
    destruct (x =? PERIOD)%N eqn:E1.
    { apply N.eqb_eq in E1. subst x.
      exfalso. apply (rfind_last PERIOD w j); [fold a; lia | exact Hx]. }
    destruct (x =? NEWLINE)%N eqn:E2.
    { apply N.eqb_eq in E2. subst x.
      exfalso. apply (rfind_last NEWLINE w j); [fold b; lia | exact Hx]. }
    destruct (x =? SPACE)%N eqn:E3; [|reflexivity].
    apply N.eqb_eq in E3. subst x.
    exfalso. apply (rfind_last SPACE w j); [fold c; lia | exact Hx].
Qed.

(** C3 (amended): in a window whose right edge is strictly before the end
    of the text, the break point is the last position of the window
    holding a period, a newline or a space, whichever of the three it is
    (there is no priority among them), or [-1] when there is none.  The
    window is cut just after that position exactly when the position
    exceeds [max_size * 0.5]; otherwise the full window is kept.  A window
    that starts inside the text has [max_size] characters. *)
Theorem loop_body_break_point (self : t) (text : str) (st : loop_state) :
  start st + chunk_size self < Z.of_nat (length text) ->
  let w := slice text (start st) (start st + chunk_size self) in
  let bp := break_point w in
  rightmost_boundary w bp /\
  (chunk_size self < 2 * bp ->
   loop_body self text st
   = {| start := start st + bp + 1 - chunk_overlap self;
        chunks := emit (chunks st) (strip (slice w 0 (bp + 1))) |}) /\
  (2 * bp <= chunk_size self ->
   loop_body self text st
   = {| start := start st + chunk_size self - chunk_overlap self;
        chunks := emit (chunks st) (strip w) |}) /\
  (0 <= start st -> 0 < chunk_size self ->
   Z.of_nat (length w) = chunk_size self /\
   slice w 0 (bp + 1) = slice text (start st) (start st + bp + 1)).
Proof.
  intros He w bp.
  split; [apply break_point_rightmost|].
  pose proof (break_point_range w) as Hbp. fold bp in Hbp.
  apply Z.ltb_lt in He.
  split; [|split].
  - intros B. apply Z.ltb_lt in B.
    unfold loop_body, window. rewrite He. fold w. fold bp.
    unfold beyond_half. rewrite B. reflexivity.
  - intros B. apply Z.ltb_ge in B.
    unfold loop_body, window. rewrite He. fold w. fold bp.
    unfold beyond_half. rewrite B. reflexivity.
  - intros Hs Hm. apply Z.ltb_lt in He.
    assert (Hw : Z.of_nat (length w) = chunk_size self).
    { unfold w. rewrite slice_nonneg by lia.
      rewrite length_firstn, length_skipn. lia. }
    split; [exact Hw|].
    unfold w. rewrite slice_slice_prefix by lia. f_equal. lia.
Qed.

Lemma loop_body_break_point_witness :
  start (mk_state 0 []) + chunk_size two_marks_cfg
  < Z.of_nat (length two_marks) /\
  break_point (slice two_marks 0 10) = 8 /\
  chunk_size two_marks_cfg < 2 * 8 /\
  loop_body two_marks_cfg two_marks (mk_state 0 [])
  = {| start := 7; chunks := [lit "aaaaaa.a"] |}.
Proof.
  split; [reflexivity|]. split; [reflexivity|]. split; [reflexivity|].
  destruct (loop_body_break_point two_marks_cfg two_marks (mk_state 0 []))
    as (_ & H & _); [reflexivity|].
  rewrite H; reflexivity.
Defined.

(** C3 as stated fails on [two_marks]: its first window of ten characters
    has its last period at position 6 and its last space at position 8.
    By priority the cut would fall just after the period; [chunk_text] cuts
    just after the space. *)
Lemma break_point_is_not_by_priority :
  start (mk_state 0 []) + chunk_size two_marks_cfg
  < Z.of_nat (length two_marks) /\
  priority_break_point (slice two_marks 0 10) = 6 /\
  priority_window two_marks_cfg two_marks 0 = (lit "aaaaaa.", 7) /\
  break_point (slice two_marks 0 10) = 8 /\
  window two_marks_cfg two_marks 0 = (lit "aaaaaa.a ", 9) /\
  window two_marks_cfg two_marks 0 <> priority_window two_marks_cfg two_marks 0.
Proof.
  repeat (split; [reflexivity|]). discriminate.
Qed.

Lemma forallb_skipn_more (l : str) (a b : nat) :
  (a <= b)%nat ->
  forallb isspace (skipn a l) = true -> forallb isspace (skipn b l) = true.
Proof.
  intros Hab H. rewrite forallb_forall in *. intros x Hx. apply H.
  replace b with ((b - a) + a)%nat in Hx by lia.
  rewrite <- skipn_skipn in Hx.
  rewrite <- (firstn_skipn (b - a) (skipn a l)). apply in_or_app. now right.
Qed.

Lemma forallb_firstn (l : str) (n : nat) :
  forallb isspace l = true -> forallb isspace (firstn n l) = true.
Proof.
  intros H. rewrite forallb_forall in *. intros x Hx. apply H.
  rewrite <- (firstn_skipn n l). apply in_or_app. now left.
Qed.

(** Past a blank tail of a text no longer than [max_size], the loop emits
    nothing more and leaves. *)
Lemma blank_tail_loop (self : t) (text : str) (fuel : nat) (st : loop_state) :
  chunk_overlap self < chunk_size self ->
  Z.of_nat (length text) <= chunk_size self ->
  forallb isspace
    (skipn (Z.to_nat (chunk_size self - chunk_overlap self)) text) = true ->
  chunk_size self - chunk_overlap self <= start st ->
  Z.of_nat (length text) - start st <= Z.of_nat fuel ->
  chunk_loop fuel self text st = Some (chunks st).
Proof.
  intros Ho Hlen Hblank. revert st.
  induction fuel as [|fuel IH]; intros st Hs Hf.
  - apply chunk_loop_done. lia.
  - destruct (Z.lt_ge_cases (start st) (Z.of_nat (length text))) as [Hlt|Hge];
      [|now apply chunk_loop_done].
    rewrite chunk_loop_step by exact Hlt.
    assert (Hb : loop_body self text st
                 = mk_state (start st + chunk_size self - chunk_overlap self)
                            (chunks st)).
    { unfold loop_body, window.
      destruct (start st + chunk_size self <? Z.of_nat (length text)) eqn:E;
        [apply Z.ltb_lt in E; lia|].
      rewrite slice_nonneg by lia.
      rewrite strip_all_space; [reflexivity|].
      apply forallb_firstn.
      apply (forallb_skipn_more text
               (Z.to_nat (chunk_size self - chunk_overlap self)));
        [lia | exact Hblank]. }
    rewrite Hb. rewrite IH; simpl; [reflexivity | lia | lia].
Qed.

(** C4 (amended): the empty text gives no chunk; a text shorter than
    [max_size] whose stripped form is not empty gives exactly one chunk,
    its stripped form, provided the text has nothing but whitespace from
    position [max_size - overlap] on, as is the case when its length is at
    most [max_size - overlap]. *)
Theorem chunk_text_short (self : t) (text : str) (fuel : nat) :
  chunk_text fuel self [] = Some [] /\
  ((0 < length text)%nat ->
   Z.of_nat (length text) < chunk_size self ->
   strip text <> [] ->
   forallb isspace
     (skipn (Z.to_nat (chunk_size self - chunk_overlap self)) text) = true ->
   (length text < fuel)%nat ->
   chunk_text fuel self text = Some [strip text]) /\
  (Z.of_nat (length text) <= chunk_size self - chunk_overlap self ->
   forallb isspace
     (skipn (Z.to_nat (chunk_size self - chunk_overlap self)) text) = true).
Proof.
  split; [|split].
  - unfold chunk_text. apply chunk_loop_done. simpl. lia.
  - intros Hpos Hlt Hne Hblank Hfuel. unfold chunk_text.
    destruct fuel as [|fuel]; [lia|].
    rewrite chunk_loop_step by (simpl; lia).
    assert (Ho : chunk_overlap self < chunk_size self).
    { destruct (Z.lt_ge_cases (chunk_overlap self) (chunk_size self))
        as [H|H]; [exact H|]. exfalso. apply Hne.
      replace (Z.to_nat (chunk_size self - chunk_overlap self)) with O
        in Hblank by lia.
      now apply strip_all_space. }
    assert (Hw : window self text 0 = (text, chunk_size self)).
    { unfold window. simpl Z.add.
      destruct (chunk_size self <? Z.of_nat (length text)) eqn:E;
        [apply Z.ltb_lt in E; lia|].
      rewrite slice_whole by lia. reflexivity. }
    assert (Hb : loop_body self text (mk_state 0 [])
                 = mk_state (chunk_size self - chunk_overlap self)
                            [strip text]).
    { unfold loop_body. simpl start. rewrite Hw. simpl chunks.
      destruct (strip text); [contradiction | reflexivity]. }
    rewrite Hb. apply blank_tail_loop; simpl; try assumption; lia.
  - intros Hle. rewrite skipn_all2 by lia. reflexivity.
Qed.

Lemma chunk_text_short_witness :
  (0 < length (lit " abc   "))%nat /\
  Z.of_nat (length (lit " abc   ")) < chunk_size short_cfg /\
  strip (lit " abc   ") <> [] /\
  forallb isspace
    (skipn (Z.to_nat (chunk_size short_cfg - chunk_overlap short_cfg))
           (lit " abc   ")) = true /\
  (length (lit " abc   ") < 8)%nat /\
  chunk_text 8 short_cfg (lit " abc   ") = Some [lit "abc"].
Proof.
  split; [vm_compute; lia|]. split; [reflexivity|].
  split; [discriminate|]. split; [reflexivity|]. split; [vm_compute; lia|].
  apply (proj1 (proj2 (chunk_text_short short_cfg (lit " abc   ") 8)));
    [vm_compute; lia | reflexivity | discriminate | reflexivity
    | vm_compute; lia].
Defined.

(** C4 as stated fails on [short_text]: eight characters with
    [max_size = 10] and [overlap = 5].  The first window holds the whole
    text, the start moves to 5, which is still inside the text, and a
    second chunk is cut from position 5. *)
Lemma short_text_two_chunks :
  (0 < length short_text)%nat /\
  Z.of_nat (length short_text) < chunk_size short_cfg /\
  strip short_text <> [] /\
  chunk_text 2 short_cfg short_text = Some [lit "abcdefgh"; lit "fgh"] /\
  forall fuel, chunk_text fuel short_cfg short_text <> Some [strip short_text].
Proof.
  split; [vm_compute; lia|]. split; [reflexivity|].
  split; [discriminate|]. split; [reflexivity|].
  intros [|[|fuel]]; try discriminate.
  assert (H : chunk_text (S (S fuel)) short_cfg short_text
              = Some [lit "abcdefgh"; lit "fgh"]).
  { apply (chunk_loop_more_fuel _ _ 2); [lia | reflexivity]. }
  rewrite H. discriminate.
Qed.

Lemma covered_more (text : str) (cs cs' : list str) (p : nat) :
  incl cs cs' -> covered text cs p -> covered text cs' p.
Proof.
  intros Hi (a & b & Ha & Hb & Hin). exists a, b. auto.
Qed.

Lemma emit_incl (cs : list str) (chunk : str) : incl cs (emit cs chunk).
Proof.
  unfold emit. destruct (truthy chunk); [apply incl_appl|]; apply incl_refl.
Qed.

Lemma covered_char (text : str) (cs : list str) (p : nat) (c : char) :
  nth_error text p = Some c -> isspace c = false ->
  covered text cs p -> In c (concat cs).
Proof.
  intros Hc Hns (a & b & Ha & Hb & Hin).
  apply in_concat. exists (strip (slice text a b)). split; [exact Hin|].
  apply strip_keeps; [|exact Hns].
  apply (slice_covers text a b p); [lia | lia | exact Hc].
Qed.

Lemma scan_invariant_step (self : t) (text : str) (st : loop_state) :
  0 < chunk_size self ->
  0 <= chunk_overlap self < chunk_size self ->
  scan_invariant self text st ->
  scan_invariant self text (loop_body self text st).
Proof.
  intros Hm Ho (F & HF & Hneg & Hcov).
  pose proof (window_end self text (start st) ltac:(lia)) as Hend.
  cbv zeta in Hend. destruct Hend as [Hle Hhalf].
  pose proof (loop_body_start self text st) as Hs'.
  pose proof (loop_body_chunks self text st) as Hc'. cbv zeta in Hc'.
  set (e := snd (window self text (start st))) in *.
  assert (Hincl : incl (chunks st) (chunks (loop_body self text st))).
  { rewrite Hc'. apply (emit_incl (chunks st)). }
  destruct (Z.lt_ge_cases (start st) 0) as [Hlt|Hge].
  - destruct (Hneg Hlt) as [H1 H2].
    exists F. rewrite Hs'. split; [lia|]. split; [intros _; lia|].
    intros p c Hp Hc Hns. apply (covered_more text (chunks st)); auto.
    apply (Hcov p c); assumption.
  - exists (Z.max F e). rewrite Hs'. split; [lia|]. split; [lia|].
    intros p c Hp Hc Hns.
    destruct (Z.lt_ge_cases (Z.of_nat p) F) as [HpF|HpF].
    + apply (covered_more text (chunks st)); auto.
      apply (Hcov p c); assumption.
    + exists (start st), e. split; [lia|]. split; [lia|].
      rewrite Hc'. rewrite (window_is_slice self text (start st)) by lia.
      fold e.
      assert (Hin : In c (strip (slice text (start st) e))).
      { apply strip_keeps; [|exact Hns].
        apply (slice_covers text (start st) e p); [lia | lia | exact Hc]. }
      destruct (strip (slice text (start st) e)) as [|x l];
        [destruct Hin|].
      simpl. apply in_or_app. right. now left.
Qed.

End Chunker.

(** ** Claims about [process_directory] *)

Module Ingestion.
Import DocumentProcessor IngestionSpec Samples.

Lemma enumerate_from_indices {A : Type} (i : Z) (l : list A) :
  map fst (enumerate_from i l)
  = map (fun k => i + Z.of_nat k) (seq 0 (length l)).
Proof.
  revert i. induction l as [|x t IH]; intros i; simpl; [reflexivity|].
  f_equal; [lia|]. rewrite IH. rewrite <- seq_shift, map_map.
  apply map_ext. intros k. lia.
Qed.

Lemma enumerate_from_length {A : Type} (i : Z) (l : list A) :
  length (enumerate_from i l) = length l.
Proof.
  revert i. induction l as [|x t IH]; intros i; simpl; [reflexivity|].
  now rewrite IH.
Qed.

Lemma file_documents_length (file path : str) (chunks : list str) :
  length (file_documents file path chunks) = length chunks.
Proof.
  unfold file_documents. now rewrite length_map, enumerate_from_length.
Qed.

Lemma file_documents_block (root file : str) (chunks : list str) :
  block_of (root, file)
           (file_documents file (os_path_join root file) chunks).
Proof.
  unfold block_of, well_numbered. rewrite file_documents_length.
  unfold file_documents. repeat split.
  - rewrite map_map. unfold doc_chunk_index. simpl.
    rewrite <- (map_map fst (fun i => Some i)), enumerate_from_indices.
    rewrite map_map. reflexivity.
  - apply Forall_forall. intros d Hd. apply in_map_iff in Hd.
    destruct Hd as (ic & <- & _). reflexivity.
  - apply Forall_forall. intros d Hd. apply in_map_iff in Hd.
    destruct Hd as (ic & <- & _). split; reflexivity.
Qed.

Lemma block_of_nil (rf : str * str) : block_of rf [].
Proof.
  unfold block_of, well_numbered. simpl. repeat split; constructor.
Qed.

Lemma process_file_block (fuel : nat) (self : t) (fs : FileSystem)
    (root file : str) (st st' : dir_state) :
  process_file fuel self fs root file st = Some st' ->
  exists b, documents st' = documents st ++ b /\ block_of (root, file) b.
Proof.
  unfold process_file.
  assert (Hskip : Some st = Some st' ->
                  exists b, documents st' = documents st ++ b /\
                            block_of (root, file) b).
  { intros [= <-]. exists []. rewrite app_nil_r.
    split; [reflexivity | apply block_of_nil]. }
  destruct (startswith_char PERIOD file); [exact Hskip|].
  destruct (load_file fs (os_path_join root file)) as [text|e];
    [|exact Hskip].
  destruct (negb (truthy (strip text))); [exact Hskip|].
  destruct (chunk_text fuel self text) as [chunks|]; [|discriminate].
  intros [= <-]. simpl.
  eexists. split; [reflexivity | apply file_documents_block].
Qed.

Lemma process_files_blocks (fuel : nat) (self : t) (fs : FileSystem)
    (root : str) (files : list str) (st st' : dir_state) :
  process_files fuel self fs root files st = Some st' ->
  exists bs, documents st' = documents st ++ concat bs /\
             Forall2 block_of (map (pair root) files) bs.
Proof.
  revert st. induction files as [|file rest IH]; intros st; simpl.
  - intros [= <-]. exists []. simpl. rewrite app_nil_r. split; constructor.
  - destruct (process_file fuel self fs root file st) as [st1|] eqn:E;
      [|discriminate].
    intros Hrest. apply process_file_block in E as (b & Hb & Hblock).
    apply IH in Hrest as (bs & Hbs & Hall).
    exists (b :: bs). simpl. rewrite Hbs, Hb, app_assoc.
    split; [reflexivity | now constructor].
Qed.

Lemma process_walk_blocks (fuel : nat) (self : t) (fs : FileSystem)
    (w : list (str * list str * list str)) (st st' : dir_state) :
  process_walk fuel self fs w st = Some st' ->
  exists bs, documents st' = documents st ++ concat bs /\
             Forall2 block_of (walked_files w) bs.
Proof.
  revert st. induction w as [|[[root dirs] files] rest IH]; intros st; simpl.
  - intros [= <-]. exists []. simpl. rewrite app_nil_r. split; constructor.
  - destruct (process_files fuel self fs root files st) as [st1|] eqn:E;
      [|discriminate].
    intros Hrest. apply process_files_blocks in E as (bs1 & Hb1 & Hall1).
    apply IH in Hrest as (bs2 & Hb2 & Hall2).
    exists (bs1 ++ bs2). rewrite concat_app, Hb2, Hb1, app_assoc.
    split; [reflexivity | now apply Forall2_app].
Qed.

(** C6: the documents that [process_directory] returns are, file by file
    in the order of the walk, one block per file; in each block every
    document carries the number of documents of the block as
    [total_chunks], and the [chunk_index] values are exactly
    0, 1, ..., total_chunks - 1 in order. *)
Theorem process_directory_numbering (fuel : nat) (self : t) (fs : FileSystem)
    (directory : str) (docs : list Document) :
  process_directory fuel self fs directory = Some (Ok docs) ->
  exists blocks,
    docs = concat blocks /\
    Forall2 block_of (walked_files (walk fs directory)) blocks /\
    Forall well_numbered blocks.
Proof.
  unfold process_directory.
  destruct (negb (path_exists fs directory)); [discriminate|].
  destruct (process_walk _ _ _ _ _) as [st|] eqn:E; [|discriminate].
  intros [= <-]. apply process_walk_blocks in E as (bs & Hbs & Hall).
  exists bs. split; [exact Hbs|]. split; [exact Hall|].
  clear Hbs. induction Hall as [|rf b l bs' [Hb _] _ IH]; constructor; auto.
Qed.

Lemma process_directory_numbering_witness :
  exists docs,
    process_directory 4 sentences_cfg docs_fs (lit "docs") = Some (Ok docs) /\
    map doc_chunk_index docs = [Some 0; Some 1; Some 2; Some 3; Some 0] /\
    map doc_total_chunks docs = [Some 4; Some 4; Some 4; Some 4; Some 1] /\
    exists blocks, docs = concat blocks /\ Forall well_numbered blocks.
Proof.
  eexists. split; [vm_compute; reflexivity|].
  split; [vm_compute; reflexivity|]. split; [vm_compute; reflexivity|].
  assert (Hrun : process_directory 4 sentences_cfg docs_fs (lit "docs")
                 = Some (Ok (file_documents (lit "a.txt") (lit "docs/a.txt")
                               [lit "Sentence one."; lit "one. Sentence two.";
                                lit "two. Sentence three."; lit "hree."]
                             ++ file_documents (lit "b.TXT") (lit "docs/b.TXT")
                                  [lit "Short note."])))
    by (vm_compute; reflexivity).
  destruct (process_directory_numbering 4 sentences_cfg docs_fs (lit "docs")
              _ Hrun) as (blocks & Hc & _ & Hw).
  exists blocks. split; [exact Hc | exact Hw].
Defined.

Lemma process_files_app (fuel : nat) (self : t) (fs : FileSystem)
    (root : str) (pre post : list str) (st : dir_state) :
  process_files fuel self fs root (pre ++ post) st
  = match process_files fuel self fs root pre st with
    | None => None
    | Some st' => process_files fuel self fs root post st'
    end.
Proof.
  revert st. induction pre as [|f pre IH]; intros st; simpl; [reflexivity|].
  destruct (process_file fuel self fs root f st); [apply IH | reflexivity].
Qed.

Lemma process_walk_app (fuel : nat) (self : t) (fs : FileSystem)
    (w1 w2 : list (str * list str * list str)) (st : dir_state) :
  process_walk fuel self fs (w1 ++ w2) st
  = match process_walk fuel self fs w1 st with
    | None => None
    | Some st' => process_walk fuel self fs w2 st'
    end.
Proof.
  revert st. induction w1 as [|[[root dirs] files] w1 IH]; intros st; simpl;
    [reflexivity|].
  destruct (process_files fuel self fs root files st);
    [apply IH | reflexivity].
Qed.

(** C10: a file whose loaded content is empty or all whitespace leaves the
    state of the ingestion as it is (no document is added, no error is
    raised), and the walk gives the same outcome as the walk without that
    file: the files after it are processed as usual. *)
Theorem blank_file_is_skipped (fuel : nat) (self : t) (fs : FileSystem)
    (root file text : str) :
  load_file fs (os_path_join root file) = Ok text ->
  forallb isspace text = true ->
  (forall st, process_file fuel self fs root file st = Some st) /\
  (forall w1 dirs pre post w2 st,
      process_walk fuel self fs
        (w1 ++ (root, dirs, pre ++ file :: post) :: w2) st
      = process_walk fuel self fs
          (w1 ++ (root, dirs, pre ++ post) :: w2) st).
Proof.
  intros Hload Hblank.
  assert (Hskip : forall st, process_file fuel self fs root file st = Some st).
  { intros st. unfold process_file.
    destruct (startswith_char PERIOD file); [reflexivity|].
    rewrite Hload, (strip_all_space text Hblank). reflexivity. }
  split; [exact Hskip|].
  intros w1 dirs pre post w2 st. rewrite !process_walk_app.
  destruct (process_walk fuel self fs w1 st) as [st1|]; [|reflexivity].
  simpl. rewrite !process_files_app.
  destruct (process_files fuel self fs root pre st1) as [st2|];
    [|reflexivity].
  simpl. now rewrite Hskip.
Qed.

Lemma blank_file_is_skipped_witness :
  load_file docs_fs (os_path_join (lit "docs") (lit "blank.txt"))
  = Ok [SPACE; NEWLINE; 9%N] /\
  forallb isspace [SPACE; NEWLINE; 9%N] = true /\
  process_walk 4 sentences_cfg docs_fs
    [(lit "docs", [],
      [lit "a.txt"; lit "blank.txt"; lit "logo.png"; lit "b.TXT"])]
    {| documents := []; processed_files := 0 |}
  = process_walk 4 sentences_cfg docs_fs
      [(lit "docs", [], [lit "a.txt"; lit "logo.png"; lit "b.TXT"])]
      {| documents := []; processed_files := 0 |}.
Proof.
  split; [vm_compute; reflexivity|]. split; [vm_compute; reflexivity|].
  assert (Hload : load_file docs_fs (os_path_join (lit "docs") (lit "blank.txt"))
                  = Ok [SPACE; NEWLINE; 9%N]) by (vm_compute; reflexivity).
  assert (Hblank : forallb isspace [SPACE; NEWLINE; 9%N] = true)
    by (vm_compute; reflexivity).
  exact (proj2 (blank_file_is_skipped 4 sentences_cfg docs_fs
                  (lit "docs") (lit "blank.txt") [SPACE; NEWLINE; 9%N]
                  Hload Hblank)
           [] [] [lit "a.txt"] [lit "logo.png"; lit "b.TXT"] []
           {| documents := []; processed_files := 0 |}).
Defined.

End Ingestion.

(** ** Claims about the vector store *)

Module Index.
Import VectorStore IndexSpec Samples.

Lemma lit_inj (a b : string) : lit a = lit b -> a = b.
Proof.
  unfold lit. intros H.
  rewrite <- (string_of_list_ascii_of_string a).
  rewrite <- (string_of_list_ascii_of_string b). f_equal.
  revert H. generalize (list_ascii_of_string a) (list_ascii_of_string b).
  induction l as [|x l IH]; intros [|y l']; simpl; try discriminate;
    [reflexivity|].
  intros [= Hxy Hl]. f_equal; [|now apply IH].
  rewrite <- (ascii_N_embedding x), <- (ascii_N_embedding y). now f_equal.
Qed.

Lemma doc_id_inj (n n' : Z) : doc_id n = doc_id n' -> n = n'.
Proof.
  unfold doc_id. intros H. apply lit_inj in H. simpl in H.
  injection H as H. apply DecimalZ.to_int_inj.
  assert (Hs : Some (Z.to_int n) = Some (Z.to_int n'))
    by (rewrite <- !NilEmpty.isi; now f_equal).
  now injection Hs.
Qed.

Lemma eqb_eq (a b : str) : PyStr.eqb a b = true <-> a = b.
Proof.
  revert b. induction a as [|x a IH]; intros [|y b]; simpl;
    try (split; [discriminate | discriminate]); [tauto|].
  rewrite andb_true_iff, N.eqb_eq, IH. split.
  - intros [-> ->]. reflexivity.
  - intros [= -> ->]. split; reflexivity.
Qed.

Lemma distinct_NoDup (l : list str) : NoDup l -> distinct l = true.
Proof.
  induction 1 as [|x l Hx _ IH]; simpl; [reflexivity|].
  rewrite IH, andb_true_r. apply negb_true_iff.
  apply not_true_is_false. intros H. apply existsb_exists in H.
  destruct H as (y & Hy & E). apply eqb_eq in E. now subst.
Qed.

Lemma ids_upto_distinct (n : nat) : distinct (ids_upto n) = true.
Proof.
  apply distinct_NoDup. unfold ids_upto.
  apply Finite.Injective_map_NoDup; [|apply seq_NoDup].
  intros a b H. apply doc_id_inj in H. lia.
Qed.

Lemma seq_from (n k : nat) : seq n k = map (Nat.add n) (seq 0 k).
Proof.
  induction n as [|n IH]; simpl.
  - symmetry. apply map_id.
  - rewrite <- seq_shift, IH, map_map. reflexivity.
Qed.

Lemma ids_upto_app (n k : nat) :
  ids_upto (n + k)
  = ids_upto n ++ map (fun j => doc_id (Z.of_nat n + Z.of_nat j)) (seq 0 k).
Proof.
  unfold ids_upto. rewrite seq_app, map_app. f_equal. simpl.
  rewrite seq_from, map_map.
  apply map_ext. intros j. f_equal. lia.
Qed.

Section Store.

Variable Embedding : Type.
Variable encode : str -> option Embedding.
Variable closer : Embedding -> Embedding -> Embedding -> bool.
Variable max_batch_size : Z.

Lemma embed_batch_ok (n i : Z) (docs : list Document) :
  forallb (embeds encode) docs = true ->
  exists batch,
    embed_batch encode n i docs = Ok batch /\
    length batch = length docs /\
    map id batch
    = map (fun j => doc_id (n + i + Z.of_nat j)) (seq 0 (length docs)).
Proof.
  revert i. induction docs as [|d docs IH]; intros i; simpl.
  - intros _. exists []. repeat split.
  - unfold embeds at 1.
    destruct (encode (content d)) as [v|]; [|discriminate].
    simpl. intros H. destruct (IH (i + 1) H) as (batch & -> & Hl & Hids).
    eexists. split; [reflexivity|]. simpl. split; [now rewrite Hl|].
    f_equal; [f_equal; lia|]. rewrite Hids.
    rewrite <- seq_shift, map_map. apply map_ext. intros j. f_equal. lia.
Qed.

Lemma embed_batch_fails (n i : Z) (docs : list Document) :
  forallb (embeds encode) docs = false ->
  embed_batch encode n i docs = Raise EmbeddingError.
Proof.
  revert i. induction docs as [|d docs IH]; intros i; simpl;
    [discriminate|].
  unfold embeds at 1.
  destruct (encode (content d)) as [v|]; [|reflexivity].
  simpl. intros H. now rewrite (IH (i + 1) H).
Qed.

Lemma embed_batch_fields (n i : Z) (docs : list Document)
    (batch : list (Entry Embedding)) :
  embed_batch encode n i docs = Ok batch ->
  map document batch = map content docs /\
  map entry_metadata batch = map metadata docs.
Proof.
  revert i batch. induction docs as [|d docs IH]; intros i batch; simpl.
  - intros [= <-]. now split.
  - destruct (encode (content d)) as [v|]; [|discriminate].
    destruct (embed_batch encode n (i + 1) docs) as [es|e] eqn:E;
      [|discriminate].
    intros [= <-]. destruct (IH _ _ E) as [H1 H2]. simpl.
    now rewrite H1, H2.
Qed.

Lemma no_metadata_batch (batch : list (Entry Embedding))
    (docs : list Document) :
  map entry_metadata batch = map metadata docs ->
  existsb no_metadata batch = negb (forallb has_metadata docs).
Proof.
  revert docs. induction batch as [|e batch IH]; intros [|d docs]; simpl;
    try discriminate; [reflexivity|].
  intros [= He Hr]. rewrite (IH _ Hr), negb_andb.
  unfold no_metadata, has_metadata. rewrite He. now destruct (metadata d).
Qed.

(** The ids that [add_documents] gives to a batch are distinct. *)
Lemma batch_ids_distinct (n : Z) (k : nat) :
  distinct (map (fun j => doc_id (n + 0 + Z.of_nat j)) (seq 0 k)) = true.
Proof.
  apply distinct_NoDup.
  apply Finite.Injective_map_NoDup; [|apply seq_NoDup].
  intros a b H. apply doc_id_inj in H. lia.
Qed.

(** None of them is present in a collection with its ids in order. *)
Lemma batch_ids_fresh (c : Collection Embedding)
    (batch : list (Entry Embedding)) :
  map id c = ids_upto (length c) ->
  map id batch
  = map (fun j => doc_id (Z.of_nat (length c) + 0 + Z.of_nat j))
        (seq 0 (length batch)) ->
  filter (fun e => negb (present c e)) batch = batch.
Proof.
  intros Hc Hb. apply forallb_filter_id.
  apply forallb_forall. intros e He. apply negb_true_iff.
  apply not_true_is_false. intros Hp. unfold present in Hp.
  apply existsb_exists in Hp as (x & Hx & Ex). apply eqb_eq in Ex.
  rewrite Hc in Hx. unfold ids_upto in Hx.
  apply in_map_iff in Hx as (a & Ha & Hin). apply in_seq in Hin.
  assert (Hid : In (id e) (map id batch)) by now apply in_map.
  rewrite Hb in Hid. apply in_map_iff in Hid as (j & Hj & _).
  rewrite Ex, <- Ha in Hj. apply doc_id_inj in Hj. lia.
Qed.

(** A batch that [add] accepts is appended to the collection of an index
    with its ids in order. *)
Lemma add_documents_shape (self : t Embedding) (docs : list Document) :
  ids_in_order self ->
  accepted encode max_batch_size docs = true ->
  exists batch,
    add_documents encode max_batch_size self docs
    = (Ok tt, {| collection := collection self ++ batch |}) /\
    length batch = length docs /\
    map document batch = map content docs /\
    map entry_metadata batch = map metadata docs /\
    map id (collection self ++ batch)
    = ids_upto (length (collection self ++ batch)).
Proof.
  intros Hids Hacc. unfold accepted in Hacc.
  apply andb_prop in Hacc as [Hacc Hmax].
  apply andb_prop in Hacc as [Hall Hmeta]. apply Z.leb_le in Hmax.
  destruct docs as [|d docs].
  - exists []. simpl. rewrite app_nil_r. destruct self.
    now repeat split.
  - destruct (embed_batch_ok (count self) 0 (d :: docs) Hall)
      as (batch & Hb & Hl & Hi).
    destruct (embed_batch_fields _ _ _ _ Hb) as [H1 H2].
    exists batch. split; [|split; [exact Hl|split; [exact H1|split; [exact H2|]]]].
    + unfold add_documents. rewrite Hb. unfold collection_add.
      rewrite Hi, batch_ids_distinct. simpl negb. cbv iota.
      rewrite (no_metadata_batch _ _ H2), Hmeta. simpl negb. cbv iota.
      destruct (max_batch_size <? Z.of_nat (length batch)) eqn:E;
        [apply Z.ltb_lt in E; lia|].
      rewrite batch_ids_fresh; [reflexivity | exact Hids|].
      rewrite Hi, Hl. unfold count, collection_count. reflexivity.
    + rewrite map_app, length_app, ids_upto_app, Hids, Hi, Hl. f_equal.
      apply map_ext. intros j. f_equal.
      unfold count, collection_count. lia.
Qed.

(** A batch that [add] does not accept leaves the index as it is. *)
Lemma add_documents_unchanged (self : t Embedding) (docs : list Document) :
  accepted encode max_batch_size docs = false ->
  snd (add_documents encode max_batch_size self docs) = self.
Proof.
  intros Hacc. destruct docs as [|d docs]; [reflexivity|].
  unfold add_documents.
  destruct (embed_batch encode (count self) 0 (d :: docs)) as [batch|e] eqn:Hb;
    [|reflexivity].
  unfold collection_add.
  destruct (negb (distinct (map id batch))); [reflexivity|].
  destruct (existsb no_metadata batch) eqn:Hm; [reflexivity|].
  destruct (max_batch_size <? Z.of_nat (length batch)) eqn:E; [reflexivity|].
  exfalso. destruct (embed_batch_fields _ _ _ _ Hb) as [H1 H2].
  rewrite (no_metadata_batch _ _ H2) in Hm. apply negb_false_iff in Hm.
  apply Z.ltb_ge in E.
  assert (Hall : forallb (embeds encode) (d :: docs) = true).
  { destruct (forallb (embeds encode) (d :: docs)) eqn:F; [reflexivity|].
    now rewrite (embed_batch_fails _ _ _ F) in Hb. }
  assert (Hl : length batch = length (d :: docs)).
  { rewrite <- (length_map document batch), H1. apply length_map. }
  unfold accepted in Hacc. rewrite Hall, Hm in Hacc. simpl in Hacc.
  apply Z.leb_gt in Hacc. rewrite Hl in E. simpl length in *. lia.
Qed.

(** A batch above the client's max batch size, or with a document that
    carries no metadata, is refused although all its embeddings are
    computed. *)
Lemma add_documents_refused (self : t Embedding) (docs : list Document) :
  forallb (embeds encode) docs = true ->
  docs <> [] ->
  forallb has_metadata docs = false \/
  max_batch_size < Z.of_nat (length docs) ->
  add_documents encode max_batch_size self docs = (Raise ValueError, self).
Proof.
  intros Hall Hne Hbad. destruct docs as [|d docs]; [contradiction|].
  destruct (embed_batch_ok (count self) 0 (d :: docs) Hall)
    as (batch & Hb & Hl & Hi).
  destruct (embed_batch_fields _ _ _ _ Hb) as [H1 H2].
  unfold add_documents. rewrite Hb. unfold collection_add.
  rewrite Hi, batch_ids_distinct. simpl negb. cbv iota.
  rewrite (no_metadata_batch _ _ H2).
  destruct (forallb has_metadata (d :: docs)) eqn:Hm; simpl negb; cbv iota;
    [|reflexivity].
  destruct Hbad as [Hbad|Hbad]; [discriminate|].
  destruct (max_batch_size <? Z.of_nat (length batch)) eqn:E; [reflexivity|].
  apply Z.ltb_ge in E. rewrite Hl in E. lia.
Qed.

Lemma add_documents_fails (self : t Embedding) (docs : list Document) :
  forallb (embeds encode) docs = false ->
  add_documents encode max_batch_size self docs = (Raise EmbeddingError, self).
Proof.
  intros H. destruct docs as [|d docs]; [discriminate|].
  unfold add_documents. now rewrite embed_batch_fails.
Qed.

Lemma run_call_counts (self : t Embedding) (c : call) :
  ids_in_order self ->
  ids_in_order (run_call encode max_batch_size self c) /\
  count (run_call encode max_batch_size self c)
  = count_call encode max_batch_size (count self) c.
Proof.
  intros Hids. destruct c as [docs| |]; simpl.
  - destruct (accepted encode max_batch_size docs) eqn:E.
    + destruct (add_documents_shape self docs Hids E)
        as (batch & -> & Hl & _ & _ & Hi).
      split; [exact Hi|].
      unfold count, collection_count. simpl. rewrite length_app. lia.
    + rewrite (add_documents_unchanged self docs E). now split.
  - now split.
  - split; reflexivity.
Qed.

Lemma fold_run_counts (calls : list call) (self : t Embedding) :
  ids_in_order self ->
  ids_in_order (fold_left (run_call encode max_batch_size) calls self) /\
  count (fold_left (run_call encode max_batch_size) calls self)
  = fold_left (count_call encode max_batch_size) calls (count self).
Proof.
  revert self. induction calls as [|c calls IH]; intros self Hids; simpl.
  - now split.
  - destruct (run_call_counts self c Hids) as [Hi <-]. now apply IH.
Qed.

Lemma run_ids_in_order (calls : list call) :
  ids_in_order (run encode max_batch_size calls).
Proof.
  apply (fold_run_counts calls empty). reflexivity.
Qed.

Lemma insert_nearest_length (q : Embedding) (e : Entry Embedding)
    (l : list (Entry Embedding)) :
  length (insert_nearest closer q e l) = S (length l).
Proof.
  induction l as [|x l IH]; simpl; [reflexivity|].
  destruct (closer q (embedding e) (embedding x)); simpl; [reflexivity|].
  now rewrite IH.
Qed.

Lemma nearest_first_length (q : Embedding) (c : Collection Embedding) :
  length (nearest_first closer q c) = length c.
Proof.
  induction c as [|e c IH]; simpl; [reflexivity|].
  rewrite insert_nearest_length. now f_equal.
Qed.

Lemma search_found (self : t Embedding) (query : str) (top_k : Z)
    (q : Embedding) :
  1 <= top_k -> count self <> 0 -> encode query = Some q ->
  search encode closer self query top_k
  = Ok (map document
          (firstn (Z.to_nat (Z.min top_k (count self)))
                  (nearest_first closer q (collection self)))).
Proof.
  intros Hk Hc Hq. unfold search.
  destruct (count self =? 0) eqn:E; [apply Z.eqb_eq in E; contradiction|].
  rewrite Hq. unfold collection_query.
  assert (Hpos : 0 < count self)
    by (unfold count, collection_count in *; lia).
  destruct (Z.min top_k (count self) <=? 0) eqn:E0;
    [apply Z.leb_le in E0; lia | reflexivity].
Qed.

(** C5: for every index state and every [top_k >= 1], [search] returns at
    most [min(top_k, count())] content strings, and exactly that many when
    the query is embedded; on an empty index it returns the empty
    sequence without an error, whatever the embedding model does; an index
    of 2 entries queried with [top_k = 5] returns exactly 2 results. *)
Theorem search_size (self : t Embedding) (query : str) (top_k : Z) :
  1 <= top_k ->
  (count self = 0 -> search encode closer self query top_k = Ok []) /\
  (forall r, search encode closer self query top_k = Ok r ->
             Z.of_nat (length r) <= Z.min top_k (count self)) /\
  (forall q, encode query = Some q ->
             exists r, search encode closer self query top_k = Ok r /\
                       Z.of_nat (length r) = Z.min top_k (count self)) /\
  (count self = 2 -> top_k = 5 ->
   forall q, encode query = Some q ->
             exists r, search encode closer self query top_k = Ok r /\
                       length r = 2%nat).
Proof.
  intros Hk.
  assert (Hempty : count self = 0 ->
                   search encode closer self query top_k = Ok []).
  { intros H. unfold search. now rewrite H. }
  assert (Hexact : forall q, encode query = Some q ->
            exists r, search encode closer self query top_k = Ok r /\
                      Z.of_nat (length r) = Z.min top_k (count self)).
  { intros q Hq. destruct (Z.eq_dec (count self) 0) as [H0|H0].
    - exists []. split; [now apply Hempty|]. simpl. lia.
    - eexists. split; [exact (search_found self query top_k q Hk H0 Hq)|].
      rewrite length_map, length_firstn, nearest_first_length.
      unfold count, collection_count in *. lia. }
  split; [exact Hempty|]. split; [|split; [exact Hexact|]].
  - intros r Hr. destruct (Z.eq_dec (count self) 0) as [H0|H0].
    + rewrite (Hempty H0) in Hr. injection Hr as <-. simpl. lia.
    + destruct (encode query) as [q|] eqn:Hq.
      * destruct (Hexact q eq_refl) as (r' & Hr' & Hl).
        rewrite Hr in Hr'. injection Hr' as <-. lia.
      * unfold search in Hr. rewrite Hq in Hr.
        destruct (count self =? 0) eqn:E; [|discriminate].
        apply Z.eqb_eq in E. contradiction.
  - intros H2 H5 q Hq. destruct (Hexact q Hq) as (r & Hr & Hl).
    exists r. split; [exact Hr|]. lia.
Qed.

Lemma forallb_embeds_nth (docs : list Document) (i : nat) (d : Document) :
  nth_error docs i = Some d -> encode (content d) = None ->
  forallb (embeds encode) docs = false.
Proof.
  revert i. induction docs as [|x docs IH]; intros [|i]; simpl;
    try discriminate.
  - intros [= ->] Hd. unfold embeds at 1. now rewrite Hd.
  - intros Hi Hd. rewrite (IH i Hi Hd). apply andb_false_r.
Qed.

(** C2 (amended): when the embedding of some entry of a batch fails,
    [add_documents] raises and the index is left as it was before the
    call: no entry of the batch is inserted, also not those before the
    failing one, and [count()] is unchanged. *)
Theorem failed_add_inserts_nothing (self : t Embedding)
    (docs : list Document) (i : nat) (d : Document) :
  nth_error docs i = Some d ->
  encode (content d) = None ->
  add_documents encode max_batch_size self docs = (Raise EmbeddingError, self) /\
  count (snd (add_documents encode max_batch_size self docs)) = count self.
Proof.
  intros Hi Hd.
  pose proof (add_documents_fails self docs (forallb_embeds_nth docs i d Hi Hd))
    as H.
  rewrite H. split; reflexivity.
Qed.

(** C8 (amended): after any sequence of calls on a fresh index, [count()]
    is the number of entries of the batches that [add] accepted since the
    last [clear()]; adding a batch of N entries that all carry metadata,
    whose embeddings are all computed and with N at most the client's max
    batch size, succeeds and raises [count()] from C to C + N; right after
    [clear()], [count()] is 0. *)
Theorem count_tracks_inserts (calls : list call) (docs : list Document) :
  count (run encode max_batch_size calls)
  = inserted_since_clear encode max_batch_size calls /\
  (forallb (embeds encode) docs = true ->
   forallb has_metadata docs = true ->
   Z.of_nat (length docs) <= max_batch_size ->
   fst (add_documents encode max_batch_size (run encode max_batch_size calls)
          docs) = Ok tt /\
   count (snd (add_documents encode max_batch_size
                 (run encode max_batch_size calls) docs))
   = count (run encode max_batch_size calls) + Z.of_nat (length docs)) /\
  count (clear (run encode max_batch_size calls)) = 0.
Proof.
  split; [|split].
  - apply (fold_run_counts calls empty). reflexivity.
  - intros Hall Hmeta Hmax.
    assert (Hacc : accepted encode max_batch_size docs = true).
    { unfold accepted. rewrite Hall, Hmeta. simpl. now apply Z.leb_le. }
    destruct (add_documents_shape (run encode max_batch_size calls) docs
                (run_ids_in_order calls) Hacc) as (batch & -> & Hl & _).
    split; [reflexivity|].
    unfold count, collection_count. simpl. rewrite length_app. lia.
  - reflexivity.
Qed.

End Store.

Lemma search_size_witness :
  1 <= 5 /\ count two_entries = 2 /\ length_encode (lit "abc") = Some 3 /\
  search length_encode length_closer two_entries (lit "abc") 5
  = Ok [lit "be"; lit "alpha"] /\
  exists r,
    search length_encode length_closer two_entries (lit "abc") 5 = Ok r /\
    length r = 2%nat.
Proof.
  split; [lia|]. split; [vm_compute; reflexivity|].
  split; [vm_compute; reflexivity|]. split; [vm_compute; reflexivity|].
  assert (Hk : 1 <= 5) by lia.
  assert (H2 : count two_entries = 2) by (vm_compute; reflexivity).
  assert (Hq : length_encode (lit "abc") = Some 3) by (vm_compute; reflexivity).
  exact (proj2 (proj2 (proj2
           (search_size Z length_encode length_closer two_entries
              (lit "abc") 5 Hk)))
           H2 eq_refl 3 Hq).
Defined.

Lemma failed_add_inserts_nothing_witness :
  nth_error failing_batch 1 = Some (plain "bad") /\
  length_encode (content (plain "bad")) = None /\
  add_documents length_encode max_batch one_entry failing_batch
  = (Raise EmbeddingError, one_entry).
Proof.
  split; [reflexivity|]. split; [vm_compute; reflexivity|].
  assert (Hbad : length_encode (content (plain "bad")) = None)
    by (vm_compute; reflexivity).
  exact (proj1 (failed_add_inserts_nothing Z length_encode max_batch one_entry
                  failing_batch 1 (plain "bad") eq_refl Hbad)).
Defined.

(** C2 as stated fails on [failing_batch]: the embedding of the entry at
    position 1 fails, the call raises, and the entry at position 0 is not
    in the index; the count after the call is the count before it. *)
Lemma failed_add_keeps_no_prefix :
  length_encode (content (nth 1 failing_batch (plain ""))) = None /\
  fst (add_documents length_encode max_batch one_entry failing_batch)
  = Raise EmbeddingError /\
  map document
      (collection (snd (add_documents length_encode max_batch one_entry failing_batch)))
  = [lit "first"] /\
  count one_entry = 1 /\
  count (snd (add_documents length_encode max_batch one_entry failing_batch)) = 1 /\
  ~ count one_entry
    < count (snd (add_documents length_encode max_batch one_entry failing_batch)).
Proof.
  vm_compute. repeat (split; [reflexivity|]). discriminate.
Qed.

Lemma count_tracks_inserts_witness :
  forallb (embeds length_encode) [plain "beta"; plain "gamma"] = true /\
  forallb has_metadata [plain "beta"; plain "gamma"] = true /\
  Z.of_nat (length [plain "beta"; plain "gamma"]) <= max_batch /\
  count (run length_encode max_batch history) = 1 /\
  count (snd (add_documents length_encode max_batch
                (run length_encode max_batch history)
                [plain "beta"; plain "gamma"]))
  = 1 + 2.
Proof.
  assert (Hall : forallb (embeds length_encode) [plain "beta"; plain "gamma"]
                 = true) by (vm_compute; reflexivity).
  assert (Hmeta : forallb has_metadata [plain "beta"; plain "gamma"] = true)
    by reflexivity.
  assert (Hmax : Z.of_nat (length [plain "beta"; plain "gamma"]) <= max_batch)
    by (vm_compute; discriminate).
  split; [exact Hall|]. split; [exact Hmeta|]. split; [exact Hmax|].
  split; [vm_compute; reflexivity|].
  exact (proj2 (proj1 (proj2
           (count_tracks_inserts Z length_encode max_batch history
              [plain "beta"; plain "gamma"])) Hall Hmeta Hmax)).
Defined.

Lemma big_batch_embeds : forallb (embeds length_encode) big_batch = true.
Proof.
  apply forallb_forall. intros d Hd. apply repeat_spec in Hd. now subst.
Qed.

(** C8 as stated fails on [big_batch]: every embedding of its 5462
    documents is computed, but the batch is above the 5461 entries that
    the client takes in one call; the one [collection.add] raises and
    [count()] stays at C instead of C + N. *)
Lemma oversized_batch_is_not_counted :
  forallb (embeds length_encode) big_batch = true /\
  Z.of_nat (length big_batch) = 5462 /\
  add_documents length_encode max_batch empty big_batch
  = (Raise ValueError, empty) /\
  count (snd (add_documents length_encode max_batch empty big_batch)) = 0 /\
  count (snd (add_documents length_encode max_batch empty big_batch))
  <> count (@empty Z) + Z.of_nat (length big_batch).
Proof.
  assert (Hl : Z.of_nat (length big_batch) = 5462).
  { unfold big_batch. rewrite repeat_length. reflexivity. }
  assert (Hadd : add_documents length_encode max_batch empty big_batch
                 = (Raise ValueError, empty)).
  { apply add_documents_refused.
    - exact big_batch_embeds.
    - intros H. rewrite H in Hl. discriminate Hl.
    - right. rewrite Hl. reflexivity. }
  split; [exact big_batch_embeds|]. split; [exact Hl|].
  split; [exact Hadd|]. rewrite Hadd, Hl. simpl.
  split; [reflexivity | discriminate].
Qed.

End Index.

(** * Further properties *)

(** ** More about [chunk_text] *)

Module ChunkerMore.
Import DocumentProcessor ChunkerSpec ChunkerFacts Shape Samples.

Lemma lstrip_suffix (s : str) :
  exists pre, s = pre ++ lstrip s /\ forallb isspace pre = true.
Proof.
  induction s as [|c t (pre & Ht & Hpre)]; simpl.
  - now exists [].
  - destruct (isspace c) eqn:E.
    + exists (c :: pre). simpl. rewrite E, Hpre. split; [now f_equal|reflexivity].
    + now exists [].
Qed.

Lemma lstrip_head (s : str) (c : char) (l : str) :
  lstrip s = c :: l -> isspace c = false.
Proof.
  induction s as [|x t IH]; simpl; [discriminate|].
  destruct (isspace x) eqn:E; [exact IH|].
  now intros [= <- _].
Qed.

Lemma rstrip_prefix (s : str) :
  exists post, s = rstrip s ++ post /\ forallb isspace post = true.
Proof.
  unfold rstrip. destruct (lstrip_suffix (rev s)) as (pre & H & Hpre).
  exists (rev pre). split.
  - rewrite <- (rev_involutive s), H at 1. now rewrite rev_app_distr.
  - rewrite forallb_forall in *. intros x Hx. apply Hpre. now apply in_rev.
Qed.

Lemma strip_substring (s : str) : substring (strip s) s.
Proof.
  unfold strip. destruct (lstrip_suffix s) as (pre & H & _).
  destruct (rstrip_prefix (lstrip s)) as (post & H' & _).
  exists pre, post. now rewrite <- H'.
Qed.

Lemma strip_trimmed (s : str) : strip s <> [] -> trimmed (strip s).
Proof.
  intros Hne. unfold trimmed. split.
  - unfold strip in *.
    destruct (rstrip_prefix (lstrip s)) as (post & H & _).
    destruct (rstrip (lstrip s)) as [|c l] eqn:E; [contradiction|].
    simpl. rewrite (lstrip_head s c (l ++ post)); [reflexivity|].
    now rewrite H.
  - unfold strip, rstrip in *. rewrite rev_involutive.
    destruct (lstrip (rev (lstrip s))) as [|c l] eqn:E; [contradiction|].
    simpl. now rewrite (lstrip_head _ _ _ E).
Qed.

Lemma slice_substring (s : str) (a b : Z) : substring (slice s a b) s.
Proof.
  unfold slice. set (n := Z.to_nat _). set (k := Z.to_nat _).
  exists (firstn k s), (skipn n (skipn k s)).
  now rewrite firstn_skipn, firstn_skipn.
Qed.

Lemma substring_trans (a b c : str) :
  substring a b -> substring b c -> substring a c.
Proof.
  intros (p1 & q1 & ->) (p2 & q2 & ->).
  exists (p2 ++ p1), (q1 ++ q2). now rewrite <- !app_assoc.
Qed.

Lemma window_substring (self : t) (text : str) (s : Z) :
  substring (fst (window self text s)) text.
Proof.
  unfold window.
  destruct (_ <? _); [|apply slice_substring].
  destruct (beyond_half _ _); [|apply slice_substring].
  simpl. eapply substring_trans; apply slice_substring.
Qed.

(** Whatever holds of every non-empty stripped window holds of every
    chunk returned. *)
Lemma chunk_text_all (P : str -> Prop) (self : t) (text : str) :
  (forall s, strip (fst (window self text s)) <> [] ->
             P (strip (fst (window self text s)))) ->
  forall fuel r, chunk_text fuel self text = Some r -> Forall P r.
Proof.
  intros HP fuel r Hr. unfold chunk_text in Hr.
  apply (chunk_loop_invariant self text (fun st => Forall P (chunks st)))
    in Hr.
  - now destruct Hr as (st' & H & _ & <-).
  - intros st H _. rewrite loop_body_chunks.
    destruct (strip (fst (window self text (start st)))) as [|c l] eqn:E;
      [exact H|].
    simpl. apply Forall_app. split; [exact H|].
    constructor; [|constructor]. rewrite <- E. apply HP. now rewrite E.
  - constructor.
Qed.

(** X1: every chunk that [chunk_text] returns is non-empty and neither starts
    nor ends with whitespace. *)
Theorem chunks_are_trimmed (self : t) (text : str) (fuel : nat)
    (r : list str) :
  chunk_text fuel self text = Some r -> Forall trimmed r.
Proof.
  apply chunk_text_all. intros s. apply strip_trimmed.
Qed.

Lemma chunks_are_trimmed_witness :
  chunk_text 1 short_cfg (lit " abc ") = Some [lit "abc"] /\
  Forall trimmed [lit "abc"].
Proof.
  split; [reflexivity|].
  apply (chunks_are_trimmed short_cfg (lit " abc ") 1). reflexivity.
Defined.

(** X2: every chunk that [chunk_text] returns is a contiguous run of
    characters of the text, for every configuration. *)
Theorem chunks_are_substrings (self : t) (text : str) (fuel : nat)
    (r : list str) :
  chunk_text fuel self text = Some r ->
  Forall (fun c => substring c text) r.
Proof.
  apply chunk_text_all. intros s _.
  eapply substring_trans; [apply strip_substring | apply window_substring].
Qed.

Lemma chunks_are_substrings_witness :
  chunk_text 2 short_cfg short_text = Some [lit "abcdefgh"; lit "fgh"] /\
  Forall (fun c => substring c short_text) [lit "abcdefgh"; lit "fgh"].
Proof.
  split; [reflexivity|].
  apply (chunks_are_substrings short_cfg short_text 2). reflexivity.
Defined.

(** Every non-whitespace character of the text is covered by the chunks
    of a scan that returns. *)
Lemma scan_covers (self : t) (text : str) (fuel : nat) (r : list str)
    (p : nat) (c : char) :
  0 < chunk_size self ->
  0 <= chunk_overlap self < chunk_size self ->
  chunk_text fuel self text = Some r ->
  nth_error text p = Some c ->
  isspace c = false ->
  In c (concat r) /\ covered text r p.
Proof.
  intros Hm Ho Hr Hc Hns. unfold chunk_text in Hr.
  apply (chunk_loop_invariant self text (scan_invariant self text)) in Hr.
  - destruct Hr as (st' & (F & HF & _ & Hcov) & Hend & <-).
    assert (Hp : Z.of_nat p < Z.of_nat (length text)).
    { apply Nat2Z.inj_lt. apply nth_error_Some. congruence. }
    assert (Hcv : covered text (chunks st') p).
    { apply (Hcov p c); [lia | exact Hc | exact Hns]. }
    split; [|exact Hcv]. now apply (Chunker.covered_char text _ p).
  - intros st HP _. now apply Chunker.scan_invariant_step.
  - exists 0. simpl. split; [lia|]. split; [lia|]. intros; lia.
Qed.

Lemma chunk_loop_returns (self : t) (text : str) (fuel : nat)
    (st : loop_state) :
  0 < chunk_size self ->
  chunk_overlap self < chunk_size self ->
  2 * chunk_overlap self <= chunk_size self + 2 ->
  0 <= start st ->
  Z.of_nat (length text) - start st <= Z.of_nat fuel ->
  exists r, chunk_loop fuel self text st = Some r /\
            (length r <= length (chunks st) + fuel)%nat.
Proof.
  intros Hm Ho Ho2. revert st.
  induction fuel as [|fuel IH]; intros st Hs Hf.
  - exists (chunks st). split; [apply chunk_loop_done; lia | lia].
  - destruct (Z.lt_ge_cases (start st) (Z.of_nat (length text))) as [Hlt|Hge].
    + rewrite chunk_loop_step by exact Hlt.
      pose proof (loop_body_progress self text st Hm Ho Ho2 Hs) as Hp.
      destruct (IH (loop_body self text st)) as (r & Hr & Hl); [lia | lia|].
      exists r. split; [exact Hr|].
      rewrite loop_body_chunks in Hl.
      destruct (truthy _) in Hl; [rewrite length_app in Hl; simpl in Hl|]; lia.
    + exists (chunks st). split; [now apply chunk_loop_done | lia].
Qed.

(** X3: when the overlap is below [chunk_size] and at most half of it plus
    one, [chunk_text] returns after at most [len(text)] iterations, with at
    most [len(text)] chunks. *)
Theorem chunk_text_returns (self : t) (text : str) :
  0 < chunk_size self ->
  chunk_overlap self < chunk_size self ->
  2 * chunk_overlap self <= chunk_size self + 2 ->
  exists r, chunk_text (length text) self text = Some r /\
            (length r <= length text)%nat.
Proof.
  intros Hm Ho Ho2.
  destruct (chunk_loop_returns self text (length text) (mk_state 0 [])
              Hm Ho Ho2) as (r & Hr & Hl); simpl; try lia.
  exists r. split; [exact Hr | exact Hl].
Qed.

Lemma chunk_text_returns_witness :
  0 < chunk_size sentences_cfg /\
  chunk_overlap sentences_cfg < chunk_size sentences_cfg /\
  2 * chunk_overlap sentences_cfg <= chunk_size sentences_cfg + 2 /\
  exists r, chunk_text (length sentences) sentences_cfg sentences = Some r /\
            (length r <= length sentences)%nat.
Proof.
  split; [reflexivity|]. split; [reflexivity|].
  split; [vm_compute; discriminate|].
  apply (chunk_text_returns sentences_cfg sentences);
    [reflexivity | reflexivity | vm_compute; discriminate].
Defined.

(** X4: with an overlap of at least [chunk_size], the start never moves to the
    right, so [chunk_text] returns on no text but the empty one. *)
Theorem full_overlap_never_returns (self : t) (text : str) (fuel : nat) :
  0 <= chunk_size self ->
  chunk_size self <= chunk_overlap self ->
  text <> [] ->
  chunk_text fuel self text = None.
Proof.
  intros Hm Ho Hne. unfold chunk_text.
  assert (Hlen : 0 < Z.of_nat (length text)).
  { destruct text; [contradiction | simpl; lia]. }
  assert (Hloop : forall st, start st <= 0 ->
                             chunk_loop fuel self text st = None).
  { induction fuel as [|fuel IH]; intros st Hs.
    - apply chunk_loop_out_of_fuel. lia.
    - rewrite chunk_loop_step by lia. apply IH.
      rewrite loop_body_start.
      pose proof (window_end self text (start st) Hm) as [Hle _]. lia. }
  apply Hloop. simpl. lia.
Qed.

Lemma full_overlap_never_returns_witness :
  0 <= 10 /\ 10 <= 10 /\ lit "a" <> [] /\
  chunk_text 1000 {| chunk_size := 10; chunk_overlap := 10 |} (lit "a") = None.
Proof.
  split; [lia|]. split; [lia|]. split; [discriminate|].
  apply (full_overlap_never_returns
           {| chunk_size := 10; chunk_overlap := 10 |} (lit "a") 1000);
    [simpl; lia | simpl; lia | discriminate].
Defined.

Lemma substring_forallb (c text : str) :
  substring c text -> forallb isspace text = true ->
  forallb isspace c = true.
Proof.
  intros (pre & post & ->) H. rewrite !forallb_app in H.
  apply andb_prop in H as [_ H]. now apply andb_prop in H as [H _].
Qed.

(** X5: a text of whitespace only gives no chunk at all. *)
Theorem blank_text_no_chunks (self : t) (text : str) (fuel : nat)
    (r : list str) :
  forallb isspace text = true ->
  chunk_text fuel self text = Some r ->
  r = [].
Proof.
  intros Hblank Hr.
  apply (chunk_text_all (fun _ => False)) in Hr.
  - destruct r as [|c r]; [reflexivity|]. now inversion Hr.
  - intros s Hne. apply Hne, strip_all_space.
    apply (substring_forallb _ text); [apply window_substring | exact Hblank].
Qed.

Lemma blank_text_no_chunks_witness :
  forallb isspace [SPACE; NEWLINE; 9%N; SPACE] = true /\
  chunk_text 4 two_marks_cfg [SPACE; NEWLINE; 9%N; SPACE] = Some [].
Proof.
  split; [reflexivity|].
  assert (H : exists r, chunk_text 4 two_marks_cfg [SPACE; NEWLINE; 9%N; SPACE]
                        = Some r) by (eexists; reflexivity).
  destruct H as (r & Hr). rewrite Hr. f_equal.
  apply (blank_text_no_chunks two_marks_cfg [SPACE; NEWLINE; 9%N; SPACE] 4 r);
    [reflexivity | exact Hr].
Defined.

Lemma total_length_app (a b : list str) :
  total_length (a ++ b) = total_length a + total_length b.
Proof.
  induction a as [|c a IH]; simpl; [reflexivity|]. rewrite IH. lia.
Qed.

(** X6: with no overlap and [chunk_size > 0] the windows do not overlap: the
    chunks returned hold together at most as many characters as the
    text. *)
Theorem no_overlap_no_duplication (self : t) (text : str) (fuel : nat)
    (r : list str) :
  0 < chunk_size self ->
  chunk_overlap self = 0 ->
  chunk_text fuel self text = Some r ->
  total_length r <= Z.of_nat (length text).
Proof.
  intros Hm Ho Hr. unfold chunk_text in Hr.
  apply (chunk_loop_invariant self text
           (fun st => 0 <= start st /\
                      total_length (chunks st)
                      <= Z.min (start st) (Z.of_nat (length text)))) in Hr.
  - destruct Hr as (st' & [_ H] & _ & <-). lia.
  - intros st [Hs Ht] Hlt.
    pose proof (loop_body_progress self text st Hm ltac:(lia) ltac:(lia) Hs)
      as Hp.
    rewrite loop_body_start in *. rewrite loop_body_chunks.
    split; [lia|].
    pose proof (strip_length (fst (window self text (start st)))) as Hl.
    rewrite (window_is_slice self text (start st)) in * by lia.
    set (e := snd (window self text (start st))) in *.
    assert (Hw : Z.of_nat (length (slice text (start st) e))
                 <= Z.min e (Z.of_nat (length text)) - start st).
    { rewrite slice_nonneg by lia.
      rewrite length_firstn, length_skipn. lia. }
    destruct (truthy _).
    + rewrite total_length_app. simpl. lia.
    + lia.
  - simpl. lia.
Qed.

Lemma no_overlap_no_duplication_witness :
  0 < chunk_size no_overlap_cfg /\
  chunk_overlap no_overlap_cfg = 0 /\
  chunk_text 5 no_overlap_cfg (lit "aaaa aaaa. bbbb bbbb. cc")
  = Some [lit "aaaa aaaa."; lit "bbbb bbbb"; lit ". cc"] /\
  total_length [lit "aaaa aaaa."; lit "bbbb bbbb"; lit ". cc"] <= 24.
Proof.
  split; [reflexivity|]. split; [reflexivity|]. split; [reflexivity|].
  apply (no_overlap_no_duplication no_overlap_cfg
           (lit "aaaa aaaa. bbbb bbbb. cc") 5); reflexivity.
Defined.

(** From a start at 0 the scan of [stall_text] under [stall_cfg] is back
    at 0 after every iteration. *)
Lemma stall_loop (fuel : nat) (st : loop_state) :
  start st = 0 -> chunk_loop fuel stall_cfg stall_text st = None.
Proof.
  revert st. induction fuel as [|fuel IH]; intros [s cs] Hs; simpl in Hs;
    subst s.
  - apply chunk_loop_out_of_fuel. reflexivity.
  - rewrite chunk_loop_step by reflexivity. apply IH.
    rewrite loop_body_start. reflexivity.
Qed.

(** C7, at a valid configuration: with [chunk_size = 10] and
    [chunk_overlap = 7] the scan of [stall_text] never leaves its loop, so
    no chunks are returned and the non-whitespace character at position 0
    of the text is in no returned chunk. *)
Theorem stalled_text_is_not_covered :
  0 < chunk_size stall_cfg /\
  0 <= chunk_overlap stall_cfg < chunk_size stall_cfg /\
  nth_error stall_text 0 = Some 97%N /\
  isspace 97%N = false /\
  forall fuel,
    ~ exists r, chunk_text fuel stall_cfg stall_text = Some r /\
                In 97%N (concat r).
Proof.
  split; [reflexivity|]. split; [split; [discriminate | reflexivity]|].
  split; [reflexivity|]. split; [reflexivity|].
  intros fuel (r & Hr & _). unfold chunk_text in Hr.
  rewrite stall_loop in Hr by reflexivity. discriminate.
Qed.

(** X26: when the overlap is not negative, below [chunk_size] and at most
    half of it plus one, [chunk_text] returns chunks in which every
    non-whitespace character of the text occurs: each position of such a
    character lies in a slice of the text whose stripped form is one of
    the chunks. *)
Theorem returned_chunks_cover_text (self : t) (text : str) :
  0 < chunk_size self ->
  0 <= chunk_overlap self < chunk_size self ->
  2 * chunk_overlap self <= chunk_size self + 2 ->
  exists r,
    chunk_text (length text) self text = Some r /\
    forall p c, nth_error text p = Some c -> isspace c = false ->
                In c (concat r) /\ covered text r p.
Proof.
  intros Hm Ho Ho2.
  destruct (chunk_loop_returns self text (length text) (mk_state 0 [])
              Hm ltac:(lia) Ho2) as (r & Hr & _); simpl; try lia.
  exists r. split; [exact Hr|].
  intros p c Hc Hns.
  apply (scan_covers self text (length text) r p c Hm Ho Hr Hc Hns).
Qed.

Lemma returned_chunks_cover_text_witness :
  0 < chunk_size sentences_cfg /\
  0 <= chunk_overlap sentences_cfg < chunk_size sentences_cfg /\
  2 * chunk_overlap sentences_cfg <= chunk_size sentences_cfg + 2 /\
  exists r,
    chunk_text (length sentences) sentences_cfg sentences = Some r /\
    forall p c, nth_error sentences p = Some c -> isspace c = false ->
                In c (concat r) /\ covered sentences r p.
Proof.
  split; [reflexivity|].
  split; [split; [vm_compute; discriminate | reflexivity]|].
  split; [vm_compute; discriminate|].
  apply (returned_chunks_cover_text sentences_cfg sentences);
    [reflexivity | split; [vm_compute; discriminate | reflexivity]
    | vm_compute; discriminate].
Defined.

End ChunkerMore.

(** ** More about loading and [process_directory] *)

Module IngestionMore.
Import DocumentProcessor IngestionSpec ChunkerFacts ChunkerMore Shape Samples.

Lemma rfind_absent (c : char) (s : str) : ~ In c s -> rfind c s = -1.
Proof.
  induction s as [|x t IH]; simpl; [reflexivity|].
  intros H. rewrite IH by tauto. simpl.
  destruct (x =? c)%N eqn:E; [|reflexivity].
  apply N.eqb_eq in E. subst. tauto.
Qed.

Lemma rfind_app (c : char) (a b : str) :
  rfind c (a ++ b)
  = if 0 <=? rfind c b then Z.of_nat (length a) + rfind c b else rfind c a.
Proof.
  induction a as [|x a IH]; simpl app; simpl rfind.
  - destruct (0 <=? rfind c b) eqn:E; [simpl; lia|].
    pose proof (rfind_range c b). apply Z.leb_gt in E. lia.
  - rewrite IH. pose proof (rfind_range c b) as Hb.
    destruct (0 <=? rfind c b) eqn:E; [|reflexivity].
    apply Z.leb_le in E.
    destruct (0 <=? Z.of_nat (length a) + rfind c b) eqn:E';
      [simpl length; lia | apply Z.leb_gt in E'; lia].
Qed.

Lemma endswith_char_split (c : char) (a : str) :
  endswith_char c a = true -> exists a', a = a' ++ [c].
Proof.
  unfold endswith_char. destruct (rev a) as [|x l] eqn:E; [discriminate|].
  intros H. apply N.eqb_eq in H. subst x. exists (rev l).
  rewrite <- (rev_involutive a), E. reflexivity.
Qed.

(** The path built for a file name without [/] ends with that name, after
    nothing or after a [/]. *)
Lemma os_path_join_name (root name : str) :
  ~ In 47%N name ->
  exists prefix,
    os_path_join root name = prefix ++ name /\
    (prefix = [] \/ exists p, prefix = p ++ [47%N]).
Proof.
  intros Hn. unfold os_path_join.
  destruct name as [|x name'] eqn:En.
  - simpl. destruct (negb (truthy root) || endswith_char 47%N root) eqn:E.
    + exists root. split; [reflexivity|].
      apply orb_prop in E as [E|E].
      * destruct root; [now left | discriminate].
      * right. now apply endswith_char_split.
    + exists (root ++ [47%N]). split; [now rewrite app_nil_r|].
      right. now exists root.
  - simpl startswith_char.
    destruct (x =? 47)%N eqn:Ex.
    { apply N.eqb_eq in Ex. subst x. exfalso. apply Hn. now left. }
    destruct (negb (truthy root) || endswith_char 47%N root) eqn:E.
    + exists root. split; [reflexivity|].
      apply orb_prop in E as [E|E].
      * destruct root; [now left | discriminate].
      * right. now apply endswith_char_split.
    + exists (root ++ [47%N]). split; [now rewrite <- app_assoc|].
      right. now exists root.
Qed.

Lemma slice_suffix (a b : str) :
  slice (a ++ b) (Z.of_nat (length a)) (Z.of_nat (length (a ++ b))) = b.
Proof.
  rewrite slice_nonneg by lia.
  rewrite Nat2Z.id, skipn_app, skipn_all, Nat.sub_diag. simpl.
  apply firstn_all2. rewrite length_app. lia.
Qed.

Lemma path_name_join (root name : str) :
  ~ In 47%N name -> path_name (os_path_join root name) = name.
Proof.
  intros Hn. destruct (os_path_join_name root name Hn) as (prefix & -> & Hp).
  unfold path_name. rewrite rfind_app, (rfind_absent _ _ Hn). simpl.
  destruct Hp as [->|(p & ->)].
  - simpl. apply slice_whole. lia.
  - rewrite rfind_app. simpl rfind. simpl Z.leb. cbv iota.
    transitivity (slice ((p ++ [47%N]) ++ name)
                    (Z.of_nat (length (p ++ [47%N])))
                    (Z.of_nat (length ((p ++ [47%N]) ++ name))));
      [|apply slice_suffix].
    f_equal. change (0 <=? 0) with true. cbv iota.
    rewrite length_app. simpl length. unfold char. lia.
Qed.

Lemma lower_period (ext : str) :
  PyStr.eqb (lower (PERIOD :: ext)) (lit ".txt")
  = PyStr.eqb (lower ext) (lit "txt").
Proof. reflexivity. Qed.

(** X7: a file named [stem.ext] is read exactly when [ext] is [txt] in any
    letter case; with any other extension [load_file] raises [ValueError]
    without touching the file. *)
Theorem load_file_by_extension (fs : FileSystem) (root stem ext : str) :
  stem <> [] -> ext <> [] ->
  ~ In 47%N (stem ++ ext) -> ~ In PERIOD ext ->
  load_file fs (os_path_join root (stem ++ PERIOD :: ext))
  = if PyStr.eqb (lower ext) (lit "txt")
    then read_text fs (os_path_join root (stem ++ PERIOD :: ext))
    else Raise ValueError.
Proof.
  intros Hs He Hslash Hdot. unfold load_file, path_suffix.
  assert (Hn : ~ In 47%N (stem ++ PERIOD :: ext)).
  { intros H. apply in_app_or in H as [H|[H|H]].
    - apply Hslash, in_or_app. now left.
    - discriminate.
    - apply Hslash, in_or_app. now right. }
  rewrite (path_name_join root _ Hn).
  assert (Hi : rfind PERIOD (stem ++ PERIOD :: ext) = Z.of_nat (length stem)).
  { rewrite rfind_app. simpl rfind. rewrite (rfind_absent _ _ Hdot). simpl.
    unfold PERIOD. simpl. lia. }
  rewrite Hi.
  assert (H1 : (0 <? Z.of_nat (length stem)) = true).
  { apply Z.ltb_lt. destruct stem; [contradiction | simpl; lia]. }
  assert (H2 : (Z.of_nat (length stem)
                <? Z.of_nat (length (stem ++ PERIOD :: ext)) - 1) = true).
  { apply Z.ltb_lt. rewrite length_app.
    destruct ext; [contradiction | simpl; lia]. }
  rewrite H1, H2. simpl andb. cbv iota.
  rewrite slice_suffix, lower_period. reflexivity.
Qed.

Lemma load_file_by_extension_witness :
  lit "b" <> [] /\ lit "TXT" <> [] /\
  ~ In 47%N (lit "b" ++ lit "TXT") /\ ~ In PERIOD (lit "TXT") /\
  load_file docs_fs (os_path_join (lit "docs") (lit "b" ++ PERIOD :: lit "TXT"))
  = Ok (lit "Short note.").
Proof.
  assert (H1 : lit "b" <> []) by discriminate.
  assert (H2 : lit "TXT" <> []) by discriminate.
  assert (H3 : ~ In 47%N (lit "b" ++ lit "TXT"))
    by (simpl; intros H; repeat destruct H as [H|H]; try discriminate H; exact H).
  assert (H4 : ~ In PERIOD (lit "TXT"))
    by (simpl; intros H; repeat destruct H as [H|H]; try discriminate H; exact H).
  repeat (split; [assumption|]).
  rewrite (load_file_by_extension docs_fs (lit "docs") (lit "b") (lit "TXT")
             H1 H2 H3 H4).
  reflexivity.
Defined.

(** Dropping from a walk a file that leaves the state as it is. *)
Lemma skipped_file_walk (fuel : nat) (self : t) (fs : FileSystem)
    (root file : str) :
  (forall st, process_file fuel self fs root file st = Some st) ->
  forall w1 dirs pre post w2 st,
    process_walk fuel self fs
      (w1 ++ (root, dirs, pre ++ file :: post) :: w2) st
    = process_walk fuel self fs
        (w1 ++ (root, dirs, pre ++ post) :: w2) st.
Proof.
  intros Hskip w1 dirs pre post w2 st.
  rewrite !Ingestion.process_walk_app.
  destruct (process_walk fuel self fs w1 st) as [st1|]; [|reflexivity].
  simpl. rewrite !Ingestion.process_files_app.
  destruct (process_files fuel self fs root pre st1) as [st2|];
    [|reflexivity].
  simpl. now rewrite Hskip.
Qed.

(** X8: a file that [load_file] cannot load, for an unsupported extension or
    a failed read, adds no document and does not stop the batch: the walk
    gives the same outcome as without that file. *)
Theorem failing_file_is_skipped (fuel : nat) (self : t) (fs : FileSystem)
    (root file : str) (e : exn) :
  load_file fs (os_path_join root file) = Raise e ->
  (forall st, process_file fuel self fs root file st = Some st) /\
  (forall w1 dirs pre post w2 st,
      process_walk fuel self fs
        (w1 ++ (root, dirs, pre ++ file :: post) :: w2) st
      = process_walk fuel self fs
          (w1 ++ (root, dirs, pre ++ post) :: w2) st).
Proof.
  intros Hload.
  assert (Hskip : forall st, process_file fuel self fs root file st = Some st).
  { intros st. unfold process_file.
    destruct (startswith_char PERIOD file); [reflexivity|].
    now rewrite Hload. }
  split; [exact Hskip | now apply skipped_file_walk].
Qed.

Lemma failing_file_is_skipped_witness :
  load_file docs_fs (os_path_join (lit "docs") (lit "logo.png"))
  = Raise ValueError /\
  process_walk 4 sentences_cfg docs_fs
    [(lit "docs", [],
      [lit "a.txt"; lit "blank.txt"; lit "logo.png"; lit "b.TXT"])]
    {| documents := []; processed_files := 0 |}
  = process_walk 4 sentences_cfg docs_fs
      [(lit "docs", [], [lit "a.txt"; lit "blank.txt"; lit "b.TXT"])]
      {| documents := []; processed_files := 0 |}.
Proof.
  assert (Hload : load_file docs_fs (os_path_join (lit "docs") (lit "logo.png"))
                  = Raise ValueError) by (vm_compute; reflexivity).
  split; [exact Hload|].
  exact (proj2 (failing_file_is_skipped 4 sentences_cfg docs_fs
                  (lit "docs") (lit "logo.png") ValueError Hload)
           [] [] [lit "a.txt"; lit "blank.txt"] [lit "b.TXT"] []
           {| documents := []; processed_files := 0 |}).
Defined.

(** X9: a file whose name starts with a period is passed over before it is
    loaded: whatever the file system holds for it, the walk gives the same
    outcome as without that file. *)
Theorem hidden_file_is_skipped (fuel : nat) (self : t) (fs : FileSystem)
    (root file : str) :
  startswith_char PERIOD file = true ->
  (forall st, process_file fuel self fs root file st = Some st) /\
  (forall w1 dirs pre post w2 st,
      process_walk fuel self fs
        (w1 ++ (root, dirs, pre ++ file :: post) :: w2) st
      = process_walk fuel self fs
          (w1 ++ (root, dirs, pre ++ post) :: w2) st).
Proof.
  intros Hh.
  assert (Hskip : forall st, process_file fuel self fs root file st = Some st).
  { intros st. unfold process_file. now rewrite Hh. }
  split; [exact Hskip | now apply skipped_file_walk].
Qed.

Lemma hidden_file_is_skipped_witness :
  startswith_char PERIOD (lit ".notes.txt") = true /\
  process_walk 4 sentences_cfg docs_fs
    [(lit "docs", [], [lit ".notes.txt"; lit "b.TXT"])]
    {| documents := []; processed_files := 0 |}
  = process_walk 4 sentences_cfg docs_fs
      [(lit "docs", [], [lit "b.TXT"])]
      {| documents := []; processed_files := 0 |}.
Proof.
  split; [reflexivity|].
  exact (proj2 (hidden_file_is_skipped 4 sentences_cfg docs_fs
                  (lit "docs") (lit ".notes.txt") eq_refl)
           [] [] [] [lit "b.TXT"] []
           {| documents := []; processed_files := 0 |}).
Defined.

Lemma chunk_text_more_fuel (fuel fuel' : nat) (self : t) (text : str)
    (r : list str) :
  (fuel <= fuel')%nat ->
  chunk_text fuel self text = Some r -> chunk_text fuel' self text = Some r.
Proof.
  intros Hle. unfold chunk_text. now apply chunk_loop_more_fuel.
Qed.

Section Progress.

Variable self : t.
Variable fs : FileSystem.
Hypothesis Hm : 0 < chunk_size self.
Hypothesis Ho : chunk_overlap self < chunk_size self.
Hypothesis Ho2 : 2 * chunk_overlap self <= chunk_size self + 2.

Lemma process_file_returns (root file : str) :
  exists f0, forall fuel st, (f0 <= fuel)%nat ->
    exists st', process_file fuel self fs root file st = Some st'.
Proof.
  unfold process_file.
  destruct (startswith_char PERIOD file); [exists O; eauto|].
  destruct (load_file fs (os_path_join root file)) as [text|e];
    [|exists O; eauto].
  destruct (negb (truthy (strip text))); [exists O; eauto|].
  exists (length text). intros fuel st Hf.
  destruct (chunk_loop_returns self text (length text) (mk_state 0 [])
              Hm Ho Ho2) as (r & Hr & _); simpl; try lia.
  rewrite (chunk_text_more_fuel _ fuel _ _ _ Hf Hr). eauto.
Qed.

Lemma process_files_returns (root : str) (files : list str) :
  exists f0, forall fuel st, (f0 <= fuel)%nat ->
    exists st', process_files fuel self fs root files st = Some st'.
Proof.
  induction files as [|file rest (f1 & IH)]; simpl.
  - exists O. eauto.
  - destruct (process_file_returns root file) as (f0 & H0).
    exists (Nat.max f0 f1). intros fuel st Hf.
    destruct (H0 fuel st ltac:(lia)) as (st1 & ->).
    apply IH. lia.
Qed.

Lemma process_walk_returns (w : list (str * list str * list str)) :
  exists f0, forall fuel st, (f0 <= fuel)%nat ->
    exists st', process_walk fuel self fs w st = Some st'.
Proof.
  induction w as [|[[root dirs] files] rest (f1 & IH)]; simpl.
  - exists O. eauto.
  - destruct (process_files_returns root files) as (f0 & H0).
    exists (Nat.max f0 f1). intros fuel st Hf.
    destruct (H0 fuel st ltac:(lia)) as (st1 & ->).
    apply IH. lia.
Qed.

End Progress.

(** X10: with an overlap below [chunk_size] and at most half of it plus one,
    [process_directory] comes to an end on every file system: it
    returns the documents or raises for the missing directory. *)
Theorem process_directory_returns (self : t) (fs : FileSystem)
    (directory : str) :
  0 < chunk_size self ->
  chunk_overlap self < chunk_size self ->
  2 * chunk_overlap self <= chunk_size self + 2 ->
  exists fuel r, process_directory fuel self fs directory = Some r.
Proof.
  intros Hm Ho Ho2.
  destruct (process_walk_returns self fs Hm Ho Ho2 (walk fs directory))
    as (f0 & H).
  exists f0. unfold process_directory.
  destruct (negb (path_exists fs directory)); [eauto|].
  destruct (H f0 {| documents := []; processed_files := 0 |} (le_n _))
    as (st' & ->). eauto.
Qed.

Lemma process_directory_returns_witness :
  0 < chunk_size sentences_cfg /\
  chunk_overlap sentences_cfg < chunk_size sentences_cfg /\
  2 * chunk_overlap sentences_cfg <= chunk_size sentences_cfg + 2 /\
  exists fuel r,
    process_directory fuel sentences_cfg docs_fs (lit "docs") = Some r.
Proof.
  split; [reflexivity|]. split; [reflexivity|].
  split; [vm_compute; discriminate|].
  apply (process_directory_returns sentences_cfg docs_fs (lit "docs"));
    [reflexivity | reflexivity | vm_compute; discriminate].
Defined.

Lemma process_file_all (P : Document -> Prop) (fuel : nat) (self : t)
    (fs : FileSystem) (root file : str) (st st' : dir_state) :
  (forall text chunks file path,
      chunk_text fuel self text = Some chunks ->
      Forall P (file_documents file path chunks)) ->
  Forall P (documents st) ->
  process_file fuel self fs root file st = Some st' ->
  Forall P (documents st').
Proof.
  intros HP Hst. unfold process_file.
  destruct (startswith_char PERIOD file); [now intros [= <-]|].
  destruct (load_file fs (os_path_join root file)) as [text|e];
    [|now intros [= <-]].
  destruct (negb (truthy (strip text))); [now intros [= <-]|].
  destruct (chunk_text fuel self text) as [chunks|] eqn:E; [|discriminate].
  intros [= <-]. simpl. apply Forall_app. split; [exact Hst|].
  now apply (HP text).
Qed.

Lemma process_walk_all (P : Document -> Prop) (fuel : nat) (self : t)
    (fs : FileSystem) (w : list (str * list str * list str))
    (st st' : dir_state) :
  (forall text chunks file path,
      chunk_text fuel self text = Some chunks ->
      Forall P (file_documents file path chunks)) ->
  Forall P (documents st) ->
  process_walk fuel self fs w st = Some st' ->
  Forall P (documents st').
Proof.
  intros HP. revert st.
  induction w as [|[[root dirs] files] rest IH]; intros st Hst; simpl.
  - now intros [= <-].
  - destruct (process_files fuel self fs root files st) as [st1|] eqn:E;
      [|discriminate].
    apply IH. clear IH. revert st Hst E.
    induction files as [|file files IHf]; intros st Hst; simpl.
    + now intros [= <-].
    + destruct (process_file fuel self fs root file st) as [st2|] eqn:E2;
        [|discriminate].
      apply IHf. now apply (process_file_all P fuel self fs root file st).
Qed.

Lemma file_documents_contents (file path : str) (chunks : list str) :
  map content (file_documents file path chunks) = chunks.
Proof.
  unfold file_documents. rewrite map_map. simpl.
  generalize 0 at 1. induction chunks as [|c l IH]; intros i; simpl;
    [reflexivity|].
  now rewrite IH.
Qed.

(** X11: with [chunk_size > 0], every document that [process_directory]
    returns has a content that is not empty, neither starts nor ends with
    whitespace and has at most [chunk_size] characters, and carries its
    metadata. *)
Theorem documents_are_chunks (fuel : nat) (self : t) (fs : FileSystem)
    (directory : str) (docs : list Document) :
  0 < chunk_size self ->
  process_directory fuel self fs directory = Some (Ok docs) ->
  Forall (fun d => trimmed (content d) /\
                   Z.of_nat (length (content d)) <= chunk_size self /\
                   metadata d <> None) docs.
Proof.
  intros Hm. unfold process_directory.
  destruct (negb (path_exists fs directory)); [discriminate|].
  destruct (process_walk _ _ _ _ _) as [st|] eqn:E; [|discriminate].
  intros [= <-]. revert E. apply process_walk_all; [|constructor].
  intros text chunks file path Hc.
  assert (Hall : Forall (fun c => trimmed c /\
                                  Z.of_nat (length c) <= chunk_size self)
                        chunks).
  { revert Hc. apply chunk_text_all. intros s Hne.
    split; [now apply strip_trimmed|].
    pose proof (strip_length (fst (window self text s))).
    pose proof (window_chunk_length self text s ltac:(lia)). lia. }
  apply Forall_forall. intros d Hd.
  assert (Hin : In (content d) chunks).
  { rewrite <- (file_documents_contents file path chunks). now apply in_map. }
  rewrite Forall_forall in Hall. destruct (Hall _ Hin) as [H1 H2].
  split; [exact H1|]. split; [exact H2|].
  unfold file_documents in Hd. apply in_map_iff in Hd.
  destruct Hd as (ic & <- & _). discriminate.
Qed.

Lemma documents_are_chunks_witness :
  0 < chunk_size sentences_cfg /\
  exists docs,
    process_directory 4 sentences_cfg docs_fs (lit "docs") = Some (Ok docs) /\
    length docs = 5%nat /\
    Forall (fun d => trimmed (content d) /\
                     Z.of_nat (length (content d)) <= chunk_size sentences_cfg /\
                     metadata d <> None) docs.
Proof.
  split; [reflexivity|].
  assert (Hrun : process_directory 4 sentences_cfg docs_fs (lit "docs")
                 = Some (Ok (file_documents (lit "a.txt") (lit "docs/a.txt")
                               [lit "Sentence one."; lit "one. Sentence two.";
                                lit "two. Sentence three."; lit "hree."]
                             ++ file_documents (lit "b.TXT") (lit "docs/b.TXT")
                                  [lit "Short note."])))
    by (vm_compute; reflexivity).
  eexists. split; [exact Hrun|]. split; [reflexivity|].
  apply (documents_are_chunks 4 sentences_cfg docs_fs (lit "docs"));
    [reflexivity | exact Hrun].
Defined.

End IngestionMore.

(** ** More about the vector store *)

Module IndexMore.
Import VectorStore IndexSpec Index Samples.

Section Store.

Variable Embedding : Type.
Variable encode : str -> option Embedding.
Variable closer : Embedding -> Embedding -> Embedding -> bool.
Variable max_batch_size : Z.

Lemma ids_upto_NoDup (n : nat) : NoDup (ids_upto n).
Proof.
  unfold ids_upto. apply Finite.Injective_map_NoDup; [|apply seq_NoDup].
  intros a b H. apply doc_id_inj in H. lia.
Qed.

(** X12: after any sequence of calls on a fresh index, no two entries share an
    id: the ids are [doc_0], [doc_1], ... in insertion order. *)
Theorem ids_are_unique (calls : list call) :
  NoDup (map id (collection (run encode max_batch_size calls))) /\
  map id (collection (run encode max_batch_size calls))
  = ids_upto (length (collection (run encode max_batch_size calls))).
Proof.
  pose proof (run_ids_in_order Embedding encode max_batch_size calls) as H.
  unfold ids_in_order in H. split; [|exact H].
  rewrite H. apply ids_upto_NoDup.
Qed.

(** X13: a batch that [add] accepts (its embeddings are all computed, its
    documents all carry metadata and it is not above the client's max
    batch size) is stored whole, after the entries already there and in
    the order of the batch, each entry with the content and the metadata
    of its document. *)
Theorem add_appends_batch (calls : list call) (docs : list Document) :
  forallb (embeds encode) docs = true ->
  forallb has_metadata docs = true ->
  Z.of_nat (length docs) <= max_batch_size ->
  map document
      (collection (snd (add_documents encode max_batch_size
                          (run encode max_batch_size calls) docs)))
  = map document (collection (run encode max_batch_size calls))
    ++ map content docs /\
  map entry_metadata
      (collection (snd (add_documents encode max_batch_size
                          (run encode max_batch_size calls) docs)))
  = map entry_metadata (collection (run encode max_batch_size calls))
    ++ map metadata docs.
Proof.
  intros Hall Hmeta Hmax.
  assert (Hacc : accepted encode max_batch_size docs = true).
  { unfold accepted. rewrite Hall, Hmeta. simpl. now apply Z.leb_le. }
  destruct (add_documents_shape Embedding encode max_batch_size
              (run encode max_batch_size calls) docs
              (run_ids_in_order Embedding encode max_batch_size calls) Hacc)
    as (batch & -> & _ & H1 & H2 & _).
  simpl. now rewrite !map_app, H1, H2.
Qed.

Lemma insert_nearest_perm (q : Embedding) (e : Entry Embedding)
    (l : list (Entry Embedding)) :
  Permutation (insert_nearest closer q e l) (e :: l).
Proof.
  induction l as [|x l IH]; simpl; [reflexivity|].
  destruct (closer q (embedding e) (embedding x)); [reflexivity|].
  rewrite IH. apply perm_swap.
Qed.

Lemma nearest_first_perm (q : Embedding) (c : Collection Embedding) :
  Permutation (nearest_first closer q c) c.
Proof.
  induction c as [|e c IH]; simpl; [reflexivity|].
  rewrite insert_nearest_perm. now constructor.
Qed.

(** What [search] returns, together with the contents it leaves out, is a
    rearrangement of the stored contents. *)
Lemma search_split (self : t Embedding) (query : str) (top_k : Z)
    (r : list str) :
  search encode closer self query top_k = Ok r ->
  exists rest,
    Permutation (r ++ rest) (map document (collection self)) /\
    (count self <= top_k -> rest = []).
Proof.
  unfold search. destruct (count self =? 0) eqn:E0.
  - intros [= <-]. exists []. apply Z.eqb_eq in E0.
    unfold count, collection_count in E0.
    destruct (collection self); [now split | simpl in E0; lia].
  - destruct (encode query) as [q|]; [|discriminate].
    unfold collection_query.
    destruct (Z.min top_k (count self) <=? 0); [discriminate|].
    intros [= <-].
    set (n := Z.to_nat (Z.min top_k (count self))).
    exists (map document (skipn n (nearest_first closer q (collection self)))).
    split.
    + rewrite <- map_app, firstn_skipn. apply Permutation_map.
      apply nearest_first_perm.
    + intros Hk. rewrite skipn_all2; [reflexivity|].
      rewrite nearest_first_length. subst n.
      unfold count, collection_count in *. lia.
Qed.

(** X14: [search] returns stored contents only, each entry at most once; when
    [top_k] is at least [count()] it returns every stored content. *)
Theorem search_returns_stored (self : t Embedding) (query : str) (top_k : Z)
    (r : list str) :
  search encode closer self query top_k = Ok r ->
  (exists rest, Permutation (r ++ rest) (map document (collection self))) /\
  (forall x, In x r -> In x (map document (collection self))) /\
  (count self <= top_k -> Permutation r (map document (collection self))).
Proof.
  intros Hr. destruct (search_split self query top_k r Hr) as (rest & Hp & Hk).
  split; [now exists rest|]. split.
  - intros x Hx. apply (Permutation_in _ Hp). apply in_or_app. now left.
  - intros Hc. rewrite (Hk Hc), app_nil_r in Hp. exact Hp.
Qed.

(** X15: insert then look up: after a batch that [add] accepts (its
    embeddings are all computed, its documents all carry metadata and it
    is not above the client's max batch size) has been added, a search
    whose query is embedded and whose [top_k] is at least [count()]
    returns the content of every document of the batch. *)
Theorem added_documents_are_found (calls : list call) (docs : list Document)
    (query : str) (q : Embedding) (top_k : Z) :
  forallb (embeds encode) docs = true ->
  forallb has_metadata docs = true ->
  Z.of_nat (length docs) <= max_batch_size ->
  encode query = Some q ->
  1 <= top_k ->
  count (snd (add_documents encode max_batch_size
                (run encode max_batch_size calls) docs)) <= top_k ->
  exists r,
    search encode closer
           (snd (add_documents encode max_batch_size
                   (run encode max_batch_size calls) docs))
           query top_k = Ok r /\
    forall d, In d docs -> In (content d) r.
Proof.
  intros Hall Hmeta Hmax Hq Hk Hc.
  assert (Hacc : accepted encode max_batch_size docs = true).
  { unfold accepted. rewrite Hall, Hmeta. simpl. now apply Z.leb_le. }
  destruct (add_documents_shape Embedding encode max_batch_size
              (run encode max_batch_size calls) docs
              (run_ids_in_order Embedding encode max_batch_size calls) Hacc)
    as (batch & Hadd & _ & H1 & _).
  rewrite Hadd in *. simpl snd in *.
  set (self' := {| collection :=
                     collection (run encode max_batch_size calls) ++ batch |})
    in *.
  assert (Hex : exists r, search encode closer self' query top_k = Ok r).
  { destruct (Z.eq_dec (count self') 0) as [H0|H0].
    - exists []. unfold search. now rewrite H0.
    - eexists. exact (search_found Embedding encode closer self' query top_k q
                        Hk H0 Hq). }
  destruct Hex as (r & Hr). exists r. split; [exact Hr|].
  destruct (search_split self' query top_k r Hr) as (rest & Hp & Hrest).
  rewrite (Hrest Hc), app_nil_r in Hp.
  intros d Hd. apply (Permutation_in _ (Permutation_sym Hp)).
  subst self'. simpl. rewrite map_app, H1. apply in_or_app. right.
  now apply in_map.
Qed.


End Store.

Lemma add_appends_batch_witness :
  forallb (embeds length_encode) [plain "beta"; plain "gamma"] = true /\
  forallb has_metadata [plain "beta"; plain "gamma"] = true /\
  Z.of_nat (length [plain "beta"; plain "gamma"]) <= max_batch /\
  map document
      (collection (snd (add_documents length_encode max_batch
                          (run length_encode max_batch history)
                          [plain "beta"; plain "gamma"])))
  = [lit "alpha"; lit "beta"; lit "gamma"].
Proof.
  assert (Hall : forallb (embeds length_encode) [plain "beta"; plain "gamma"]
                 = true) by (vm_compute; reflexivity).
  assert (Hmeta : forallb has_metadata [plain "beta"; plain "gamma"] = true)
    by reflexivity.
  assert (Hmax : Z.of_nat (length [plain "beta"; plain "gamma"]) <= max_batch)
    by (vm_compute; discriminate).
  split; [exact Hall|]. split; [exact Hmeta|]. split; [exact Hmax|].
  rewrite (proj1 (add_appends_batch Z length_encode max_batch history
                    [plain "beta"; plain "gamma"] Hall Hmeta Hmax)).
  vm_compute. reflexivity.
Defined.

Lemma search_returns_stored_witness :
  search length_encode length_closer two_entries (lit "abc") 1
  = Ok [lit "be"] /\
  In (lit "be") (map document (collection two_entries)).
Proof.
  assert (Hr : search length_encode length_closer two_entries (lit "abc") 1
               = Ok [lit "be"]) by (vm_compute; reflexivity).
  split; [exact Hr|].
  apply (proj1 (proj2 (search_returns_stored Z length_encode length_closer
                         two_entries (lit "abc") 1 [lit "be"] Hr))).
  now left.
Defined.

Lemma added_documents_are_found_witness :
  forallb (embeds length_encode) [plain "beta"; plain "gamma"] = true /\
  forallb has_metadata [plain "beta"; plain "gamma"] = true /\
  Z.of_nat (length [plain "beta"; plain "gamma"]) <= max_batch /\
  length_encode (lit "abc") = Some 3 /\
  1 <= 10 /\
  count (snd (add_documents length_encode max_batch
                (run length_encode max_batch history)
                [plain "beta"; plain "gamma"])) <= 10 /\
  exists r,
    search length_encode length_closer
      (snd (add_documents length_encode max_batch
              (run length_encode max_batch history)
              [plain "beta"; plain "gamma"])) (lit "abc") 10 = Ok r /\
    forall d, In d [plain "beta"; plain "gamma"] -> In (content d) r.
Proof.
  assert (Hall : forallb (embeds length_encode) [plain "beta"; plain "gamma"]
                 = true) by (vm_compute; reflexivity).
  assert (Hmeta : forallb has_metadata [plain "beta"; plain "gamma"] = true)
    by reflexivity.
  assert (Hmax : Z.of_nat (length [plain "beta"; plain "gamma"]) <= max_batch)
    by (vm_compute; discriminate).
  assert (Hq : length_encode (lit "abc") = Some 3) by (vm_compute; reflexivity).
  assert (Hk : 1 <= 10) by lia.
  assert (Hc : count (snd (add_documents length_encode max_batch
                             (run length_encode max_batch history)
                             [plain "beta"; plain "gamma"])) <= 10)
    by (vm_compute; discriminate).
  repeat (split; [assumption|]).
  exact (added_documents_are_found Z length_encode length_closer max_batch
           history [plain "beta"; plain "gamma"] (lit "abc") 3 10
           Hall Hmeta Hmax Hq Hk Hc).
Defined.


End IndexMore.

(** ** The prompt, the service and the routes *)

Module ServiceFacts.
Import Shape Samples ServiceSamples IndexSpec.

Lemma substring_refl (s : str) : substring s s.
Proof. exists [], []. now rewrite app_nil_r. Qed.

Lemma substring_app_l (c a b : str) : substring c a -> substring c (a ++ b).
Proof.
  intros (pre & post & ->). exists pre, (post ++ b).
  now rewrite <- !app_assoc.
Qed.

Lemma substring_app_r (c a b : str) : substring c b -> substring c (a ++ b).
Proof.
  intros (pre & post & ->). exists (a ++ pre), post.
  now rewrite <- !app_assoc.
Qed.

Lemma join_substring (sep c : str) (l : list str) :
  In c l -> substring c (LLMHandler.join sep l).
Proof.
  induction l as [|x r IH]; [intros []|].
  intros Hin. simpl. destruct r as [|y r].
  - destruct Hin as [->|[]]. apply substring_refl.
  - destruct Hin as [->|Hin].
    + apply substring_app_l, substring_refl.
    + apply substring_app_r, substring_app_r, IH, Hin.
Qed.

(** X16: the prompt sent to the model holds the question and every retrieved
    passage word for word; without passages it holds the sentence that
    says so. *)
Theorem prompt_holds_passages (query : str) (context : list str) :
  substring query (LLMHandler.user_message query context) /\
  (forall c, In c context ->
             substring c (LLMHandler.user_message query context)) /\
  (context = [] ->
   substring LLMHandler.NO_CONTEXT (LLMHandler.user_message query context)).
Proof.
  unfold LLMHandler.user_message. split; [|split].
  - do 5 apply substring_app_r. apply substring_app_l, substring_refl.
  - intros c Hc. do 2 apply substring_app_r. apply substring_app_l.
    unfold LLMHandler.context_text. destruct context as [|x r]; [destruct Hc|].
    now apply join_substring.
  - intros ->. do 2 apply substring_app_r. apply substring_app_l.
    apply substring_refl.
Qed.

Lemma prompt_holds_passages_witness :
  In (lit "be") [lit "alpha"; lit "be"] /\
  substring (lit "be")
    (LLMHandler.user_message (lit "What?") [lit "alpha"; lit "be"]).
Proof.
  assert (Hin : In (lit "be") [lit "alpha"; lit "be"]) by (right; now left).
  split; [exact Hin|].
  exact (proj1 (proj2 (prompt_holds_passages (lit "What?")
                         [lit "alpha"; lit "be"])) (lit "be") Hin).
Defined.

(** Every document that [process_directory] returns carries metadata. *)
Lemma processed_documents_have_metadata (fuel : nat)
    (dp : DocumentProcessor.t) (fs : FileSystem) (dir : str)
    (docs : list Document) :
  DocumentProcessor.process_directory fuel dp fs dir = Some (Ok docs) ->
  forallb has_metadata docs = true.
Proof.
  unfold DocumentProcessor.process_directory.
  destruct (negb (path_exists fs dir)); [discriminate|].
  destruct (DocumentProcessor.process_walk _ _ _ _ _) as [st|] eqn:E;
    [|discriminate].
  intros [= <-]. apply forallb_forall. apply Forall_forall.
  revert E. apply IngestionMore.process_walk_all; [|constructor].
  intros text chunks file path _. apply Forall_forall. intros d Hd.
  unfold DocumentProcessor.file_documents in Hd. apply in_map_iff in Hd.
  destruct Hd as (ic & <- & _). reflexivity.
Qed.

Section Service.

Variable Embedding : Type.
Variable encode : str -> option Embedding.
Variable closer : Embedding -> Embedding -> Embedding -> bool.
Variable max_batch_size : Z.
Variable complete : str -> str -> str -> option str.
Variable fs : FileSystem.
Variable settings : Config.Settings.

Lemma empty_ids_in_order (vs : VectorStore.t Embedding) :
  ids_in_order (VectorStore.clear vs).
Proof. reflexivity. Qed.

(** X17: on an initialized service, a reload whose directory is
    processed into at most as many documents as the client takes in one
    call, and whose embeddings are all computed, leaves in the index
    exactly the documents of the directory, in order, whatever the index
    held before. *)
Theorem reload_replaces_index (fuel : nat) (self : ChatbotService.t Embedding)
    (vs : VectorStore.t Embedding) (dp : DocumentProcessor.t)
    (dir : str) (docs : list Document) :
  ChatbotService.vector_store self = Some vs ->
  ChatbotService.document_processor self = Some dp ->
  DocumentProcessor.process_directory fuel dp fs dir = Some (Ok docs) ->
  forallb (embeds encode) docs = true ->
  Z.of_nat (length docs) <= max_batch_size ->
  exists vs',
    ChatbotService.reload_documents encode max_batch_size fs fuel self dir
    = Some (Returned tt, ChatbotService.set_vector_store self vs') /\
    map VectorStore.document (VectorStore.collection vs') = map content docs /\
    VectorStore.count vs' = Z.of_nat (length docs).
Proof.
  intros Hvs Hdp Hdocs Hall Hmax.
  assert (Hacc : accepted encode max_batch_size docs = true).
  { unfold accepted.
    rewrite Hall, (processed_documents_have_metadata _ _ _ _ _ Hdocs).
    simpl. now apply Z.leb_le. }
  unfold ChatbotService.reload_documents. rewrite Hvs.
  unfold ChatbotService.load_documents. simpl. rewrite Hdp, Hdocs.
  destruct docs as [|d docs].
  - exists (VectorStore.clear vs). now repeat split.
  - destruct (Index.add_documents_shape Embedding encode max_batch_size
                (VectorStore.clear vs) (d :: docs)
                (empty_ids_in_order vs) Hacc) as (batch & -> & _ & H1 & _).
    eexists. split; [reflexivity|]. simpl VectorStore.collection.
    split; [exact H1|].
    unfold VectorStore.count, VectorStore.collection_count. simpl.
    rewrite <- (length_map VectorStore.document), H1, length_map.
    reflexivity.
Qed.

(** X18: a reload that fails, for a missing directory or for an embedding that
    cannot be computed, raises and leaves the index empty: the documents
    held before are gone. *)
Theorem failed_reload_empties_index (fuel : nat)
    (self : ChatbotService.t Embedding) (vs : VectorStore.t Embedding)
    (dp : DocumentProcessor.t) (dir : str) :
  ChatbotService.vector_store self = Some vs ->
  ChatbotService.document_processor self = Some dp ->
  (exists e, DocumentProcessor.process_directory fuel dp fs dir
             = Some (Raise e)) \/
  (exists docs, DocumentProcessor.process_directory fuel dp fs dir
                = Some (Ok docs) /\
                forallb (embeds encode) docs = false) ->
  exists err,
    ChatbotService.reload_documents encode max_batch_size fs fuel self dir
    = Some (Raised err,
            ChatbotService.set_vector_store self (VectorStore.clear vs)) /\
    VectorStore.count (VectorStore.clear vs) = 0.
Proof.
  intros Hvs Hdp Hfail.
  unfold ChatbotService.reload_documents. rewrite Hvs.
  unfold ChatbotService.load_documents. simpl. rewrite Hdp.
  destruct Hfail as [(e & ->)|(docs & -> & Hall)].
  - exists (Inner e). now split.
  - destruct docs as [|d docs]; [discriminate|].
    rewrite (Index.add_documents_fails Embedding encode max_batch_size _ _ Hall).
    exists (Inner EmbeddingError). now split.
Qed.

(** X19: [initialize] ingests only into an empty store and only once: over a
    persisted collection that is not empty it keeps the collection and
    reads no file, and on a service already initialized it does
    nothing. *)
Theorem initialize_ingests_once (fuel : nat)
    (self : ChatbotService.t Embedding)
    (c : VectorStore.Collection Embedding)
    (persisted : option (VectorStore.Collection Embedding)) :
  (ChatbotService.initialized self = true ->
   ChatbotService.initialize encode max_batch_size fs settings fuel persisted self
   = Some (Returned tt, self)) /\
  (ChatbotService.initialized self = false -> c <> [] ->
   exists s,
     ChatbotService.initialize encode max_batch_size fs settings fuel (Some c) self
     = Some (Returned tt, s) /\
     ChatbotService.initialized s = true /\
     ChatbotService.vector_store s = Some {| VectorStore.collection := c |} /\
     ChatbotService.top_k s = Some (Config.top_k_results settings)).
Proof.
  unfold ChatbotService.initialize. split.
  - intros ->. reflexivity.
  - intros -> Hc. simpl.
    destruct c as [|e c]; [contradiction|].
    unfold VectorStore.count, VectorStore.collection_count. simpl length.
    destruct (Z.of_nat (S (length c)) =? 0) eqn:E;
      [apply Z.eqb_eq in E; lia|].
    eexists. split; [reflexivity|]. now repeat split.
Qed.

(** X20: when the first [initialize] of a new service fails, the service stays
    uninitialized and every later [chat] raises. *)
Theorem failed_initialize_blocks_chat (fuel : nat)
    (persisted : option (VectorStore.Collection Embedding))
    (e : error) (s : ChatbotService.t Embedding) :
  ChatbotService.initialize encode max_batch_size fs settings fuel persisted
    ChatbotService.new = Some (Raised e, s) ->
  ChatbotService.initialized s = false /\
  forall message,
    ChatbotService.chat encode closer complete s message
    = Raised AttributeError.
Proof.
  unfold ChatbotService.initialize. simpl.
  destruct (VectorStore.count _ =? 0); [|discriminate].
  unfold ChatbotService.load_documents. simpl.
  destruct (DocumentProcessor.process_directory _ _ _ _) as [[docs|x]|];
    [| |discriminate].
  - destruct docs as [|d docs]; [discriminate|].
    destruct (VectorStore.add_documents _ _ _) as [[u|x] vs'];
      [discriminate|].
    intros [= <- <-]. now split.
  - intros [= <- <-]. now split.
Qed.

(** X21: over an empty index [chat] asks the model with no passage at all,
    whatever [top_k] is and without embedding the question. *)
Theorem chat_on_empty_index (self : ChatbotService.t Embedding)
    (vs : VectorStore.t Embedding) (h : LLMHandler.t) (k : Z)
    (message : str) :
  ChatbotService.vector_store self = Some vs ->
  ChatbotService.llm_handler self = Some h ->
  ChatbotService.top_k self = Some k ->
  VectorStore.count vs = 0 ->
  ChatbotService.chat encode closer complete self message
  = LLMHandler.generate_response complete h message [] /\
  substring LLMHandler.NO_CONTEXT (LLMHandler.user_message message []).
Proof.
  intros Hvs Hh Hk H0. split.
  - unfold ChatbotService.chat. rewrite Hvs, Hk.
    unfold VectorStore.search. now rewrite H0, Hh.
  - unfold LLMHandler.user_message. do 2 apply substring_app_r.
    apply substring_app_l, substring_refl.
Qed.

Lemma search_context (self : VectorStore.t Embedding) (query : str) (k : Z)
    (context : list str) :
  VectorStore.search encode closer self query k = Ok context ->
  (forall c, In c context ->
             In c (map VectorStore.document (VectorStore.collection self))) /\
  Z.of_nat (length context) <= Z.max 0 k.
Proof.
  intros Hs.
  destruct (IndexMore.search_split Embedding encode closer self query k
              context Hs) as (rest & Hp & _).
  split.
  - intros c Hc. apply (Permutation_in _ Hp). apply in_or_app. now left.
  - revert Hs. unfold VectorStore.search.
    destruct (VectorStore.count self =? 0); [intros [= <-]; simpl; lia|].
    destruct (encode query) as [q|]; [|discriminate].
    unfold VectorStore.collection_query.
    destruct (Z.min k (VectorStore.count self) <=? 0) eqn:E; [discriminate|].
    intros [= <-]. apply Z.leb_gt in E.
    rewrite length_map, length_firstn. lia.
Qed.

Lemma valid_no_surrogate (message : str) :
  Routes.chat_request_valid message = true ->
  existsb Routes.surrogate message = false.
Proof.
  unfold Routes.chat_request_valid. intros H.
  apply andb_prop in H as [H _]. apply andb_prop in H as [H _].
  now apply negb_true_iff in H.
Qed.

Lemma valid_length (message : str) :
  Routes.chat_request_valid message = true ->
  Z.of_nat (length message) <= 1000.
Proof.
  unfold Routes.chat_request_valid. intros H.
  apply andb_prop in H as [_ H]. now apply Z.leb_le in H.
Qed.

(** X22: a whitespace-only message is answered with 400 whatever the state of
    the service, also before [initialize]. *)
Theorem blank_message_is_rejected (self : ChatbotService.t Embedding)
    (message : str) :
  Routes.chat_request_valid message = true ->
  forallb isspace message = true ->
  Routes.chat encode closer complete self message
  = Routes.HTTPException 400 (Routes.Message Routes.EMPTY_MESSAGE).
Proof.
  intros Hv Hb. unfold Routes.chat, Routes.chat_handler.
  rewrite (valid_no_surrogate message Hv).
  now rewrite Hv, (strip_all_space message Hb).
Qed.

(** X23: an answer returned with status 200 was given by the model for a
    prompt built from the stripped message, which is not empty and has at
    most 1000 characters, and from at most [top_k] passages, each of them
    the content of a stored entry. *)
Theorem chat_answer_provenance (self : ChatbotService.t Embedding)
    (message : str) (body : Routes.ChatResponse) :
  Routes.chat encode closer complete self message = Routes.Success body ->
  exists vs h k context,
    ChatbotService.vector_store self = Some vs /\
    ChatbotService.llm_handler self = Some h /\
    ChatbotService.top_k self = Some k /\
    trimmed (strip message) /\
    Z.of_nat (length (strip message)) <= 1000 /\
    (forall c, In c context ->
               In c (map VectorStore.document (VectorStore.collection vs))) /\
    Z.of_nat (length context) <= Z.max 0 k /\
    complete (LLMHandler.model h) LLMHandler.system_message
             (LLMHandler.user_message (strip message) context)
    = Some (Routes.response body).
Proof.
  unfold Routes.chat, Routes.chat_handler.
  destruct (existsb Routes.surrogate message); [discriminate|].
  destruct (Routes.chat_request_valid message) eqn:Hv; [|discriminate].
  destruct (strip message) as [|x l] eqn:Es; [discriminate|]. simpl negb.
  cbv iota. unfold ChatbotService.chat.
  destruct (ChatbotService.vector_store self) as [vs|]; [|discriminate].
  destruct (ChatbotService.top_k self) as [k|]; [|discriminate].
  destruct (VectorStore.search encode closer vs (x :: l) k)
    as [context|e] eqn:Hs; [|discriminate].
  destruct (ChatbotService.llm_handler self) as [h|]; [|discriminate].
  unfold LLMHandler.generate_response.
  destruct (complete _ _ _) as [answer|] eqn:Ha; [|discriminate].
  intros [= <-]. exists vs, h, k, context.
  destruct (search_context vs (x :: l) k context Hs) as [Hin Hlen].
  repeat (split; [reflexivity|]).
  split; [rewrite <- Es; apply ChunkerMore.strip_trimmed; now rewrite Es|].
  split.
  { pose proof (strip_length message) as Hl. rewrite Es in Hl.
    pose proof (valid_length message Hv). lia. }
  split; [exact Hin|]. split; [exact Hlen | exact Ha].
Qed.

(** X24: an error answer of the chat route never carries the text of an
    exception: it is the bare 500 for a message that is not valid Unicode,
    the validation error 422, the 400 for a message that is empty once
    stripped, or a 500 with one fixed sentence, the last exactly when the
    service raised. *)
Theorem chat_errors_are_generic (self : ChatbotService.t Embedding)
    (message : str) (code : Z) (d : Routes.detail) :
  Routes.chat encode closer complete self message
  = Routes.HTTPException code d ->
  (code = 500 /\ d = Routes.Message Routes.INTERNAL_SERVER_ERROR /\
   existsb Routes.surrogate message = true) \/
  (code = 422 /\ d = Routes.Validation /\
   existsb Routes.surrogate message = false /\
   Routes.chat_request_valid message = false) \/
  (code = 400 /\ d = Routes.Message Routes.EMPTY_MESSAGE /\
   Routes.chat_request_valid message = true /\
   strip message = []) \/
  (code = 500 /\ d = Routes.Message Routes.CHAT_FAILED /\
   Routes.chat_request_valid message = true /\
   exists e, ChatbotService.chat encode closer complete self (strip message)
             = Raised e).
Proof.
  unfold Routes.chat, Routes.chat_handler.
  destruct (existsb Routes.surrogate message);
    [intros [= <- <-]; now left|].
  destruct (Routes.chat_request_valid message);
    [|intros [= <- <-]; right; now left].
  destruct (strip message) as [|x l] eqn:Es; simpl negb; cbv iota.
  - intros [= <- <-]. right. right. now left.
  - destruct (ChatbotService.chat _ _ _ _ _) as [a|e] eqn:Ec; [discriminate|].
    intros [= <- <-]. right. right. right. repeat split. now exists e.
Qed.

(** X25: when the directory is processed into at most as many
    documents as the client takes in one call and their embeddings are
    all computed, the reload succeeds and the reload route answers 200
    with the number of these documents as [document_count]. *)
Theorem reload_reports_document_count (fuel : nat)
    (self : ChatbotService.t Embedding) (vs : VectorStore.t Embedding)
    (dp : DocumentProcessor.t) (docs : list Document) :
  ChatbotService.vector_store self = Some vs ->
  ChatbotService.document_processor self = Some dp ->
  DocumentProcessor.process_directory fuel dp fs (Config.data_dir settings)
  = Some (Ok docs) ->
  forallb (embeds encode) docs = true ->
  Z.of_nat (length docs) <= max_batch_size ->
  exists body s,
    Routes.reload_documents encode max_batch_size fs settings fuel self
    = Some (Routes.Success body, s) /\
    Routes.document_count body = Z.of_nat (length docs).
Proof.
  intros Hvs Hdp Hdocs Hall Hmax.
  assert (Hacc : accepted encode max_batch_size docs = true).
  { unfold accepted.
    rewrite Hall, (processed_documents_have_metadata _ _ _ _ _ Hdocs).
    simpl. now apply Z.leb_le. }
  unfold Routes.reload_documents.
  unfold ChatbotService.reload_documents. rewrite Hvs.
  unfold ChatbotService.load_documents. simpl. rewrite Hdp, Hdocs.
  destruct docs as [|d docs].
  - simpl. eexists. eexists. split; reflexivity.
  - destruct (Index.add_documents_shape Embedding encode max_batch_size
                (VectorStore.clear vs) (d :: docs)
                (empty_ids_in_order vs) Hacc) as (batch & -> & _ & H1 & _).
    simpl. eexists. eexists. split; [reflexivity|]. simpl.
    unfold VectorStore.count, VectorStore.collection_count. simpl.
    rewrite <- (length_map VectorStore.document), H1, length_map.
    reflexivity.
Qed.

End Service.

Lemma sample_documents :
  DocumentProcessor.process_directory 4 sentences_cfg docs_fs (lit "docs")
  = Some (Ok (DocumentProcessor.file_documents (lit "a.txt") (lit "docs/a.txt")
                [lit "Sentence one."; lit "one. Sentence two.";
                 lit "two. Sentence three."; lit "hree."]
              ++ DocumentProcessor.file_documents (lit "b.TXT")
                   (lit "docs/b.TXT") [lit "Short note."])).
Proof. vm_compute. reflexivity. Qed.

Lemma reload_replaces_index_witness :
  exists vs',
    ChatbotService.reload_documents length_encode max_batch docs_fs 4 ready (lit "docs")
    = Some (Returned tt, ChatbotService.set_vector_store ready vs') /\
    VectorStore.count vs' = 5.
Proof.
  assert (Hall : forallb (embeds length_encode)
                   (DocumentProcessor.file_documents (lit "a.txt")
                      (lit "docs/a.txt")
                      [lit "Sentence one."; lit "one. Sentence two.";
                       lit "two. Sentence three."; lit "hree."]
                    ++ DocumentProcessor.file_documents (lit "b.TXT")
                         (lit "docs/b.TXT") [lit "Short note."]) = true)
    by (vm_compute; reflexivity).
  assert (Hmax : Z.of_nat (length
                   (DocumentProcessor.file_documents (lit "a.txt")
                      (lit "docs/a.txt")
                      [lit "Sentence one."; lit "one. Sentence two.";
                       lit "two. Sentence three."; lit "hree."]
                    ++ DocumentProcessor.file_documents (lit "b.TXT")
                         (lit "docs/b.TXT") [lit "Short note."]))
                 <= max_batch) by (vm_compute; discriminate).
  destruct (reload_replaces_index Z length_encode max_batch docs_fs 4 ready
              two_entries sentences_cfg (lit "docs") _ eq_refl eq_refl
              sample_documents Hall Hmax) as (vs' & Hr & _ & Hc).
  exists vs'. split; [exact Hr | exact Hc].
Defined.

Lemma failed_reload_empties_index_witness :
  DocumentProcessor.process_directory 4 sentences_cfg no_fs (lit "docs")
  = Some (Raise FileNotFoundError) /\
  exists err,
    ChatbotService.reload_documents length_encode max_batch no_fs 4 ready (lit "docs")
    = Some (Raised err,
            ChatbotService.set_vector_store ready
              (VectorStore.clear two_entries)).
Proof.
  assert (Hd : DocumentProcessor.process_directory 4 sentences_cfg no_fs
                 (lit "docs") = Some (Raise FileNotFoundError))
    by (vm_compute; reflexivity).
  split; [exact Hd|].
  destruct (failed_reload_empties_index Z length_encode max_batch no_fs 4 ready
              two_entries sentences_cfg (lit "docs") eq_refl eq_refl
              (or_introl (ex_intro _ FileNotFoundError Hd)))
    as (err & Hr & _).
  exists err. exact Hr.
Defined.

Lemma initialize_ingests_once_witness :
  ChatbotService.initialized (@ChatbotService.new Z) = false /\
  VectorStore.collection two_entries <> [] /\
  exists s,
    ChatbotService.initialize length_encode max_batch no_fs settings 0
      (Some (VectorStore.collection two_entries)) ChatbotService.new
    = Some (Returned tt, s) /\
    ChatbotService.top_k s = Some 3.
Proof.
  assert (Hc : VectorStore.collection two_entries <> [])
    by (vm_compute; discriminate).
  split; [reflexivity|]. split; [exact Hc|].
  destruct (proj2 (initialize_ingests_once Z length_encode max_batch no_fs settings 0
                     ChatbotService.new (VectorStore.collection two_entries)
                     None) eq_refl Hc) as (s & Hs & _ & _ & Hk).
  exists s. split; [exact Hs | exact Hk].
Defined.

Lemma failed_initialize_blocks_chat_witness :
  ChatbotService.initialize length_encode max_batch no_fs settings 0 None
    ChatbotService.new
  = Some (Raised (Inner FileNotFoundError),
          {| ChatbotService.initialized := false;
             ChatbotService.vector_store := Some VectorStore.empty;
             ChatbotService.llm_handler :=
               Some {| LLMHandler.model := lit "gpt-4o-mini" |};
             ChatbotService.document_processor := Some sentences_cfg;
             ChatbotService.top_k := None |}) /\
  ChatbotService.chat length_encode length_closer canned
    {| ChatbotService.initialized := false;
       ChatbotService.vector_store := Some VectorStore.empty;
       ChatbotService.llm_handler :=
         Some {| LLMHandler.model := lit "gpt-4o-mini" |};
       ChatbotService.document_processor := Some sentences_cfg;
       ChatbotService.top_k := None |} (lit "Hello")
  = Raised AttributeError.
Proof.
  assert (Hi : ChatbotService.initialize length_encode max_batch no_fs settings 0 None
                 ChatbotService.new
               = Some (Raised (Inner FileNotFoundError),
                       {| ChatbotService.initialized := false;
                          ChatbotService.vector_store := Some VectorStore.empty;
                          ChatbotService.llm_handler :=
                            Some {| LLMHandler.model := lit "gpt-4o-mini" |};
                          ChatbotService.document_processor :=
                            Some sentences_cfg;
                          ChatbotService.top_k := None |}))
    by (vm_compute; reflexivity).
  split; [exact Hi|].
  exact (proj2 (failed_initialize_blocks_chat Z length_encode length_closer
                  max_batch canned no_fs settings 0 None _ _ Hi) (lit "Hello")).
Defined.

Lemma chat_on_empty_index_witness :
  VectorStore.count (@VectorStore.empty Z) = 0 /\
  ChatbotService.chat length_encode length_closer canned
    (ChatbotService.set_vector_store ready VectorStore.empty) (lit "bad")
  = Returned (lit "MEU offers certificate courses in tourism.").
Proof.
  split; [reflexivity|].
  rewrite (proj1 (chat_on_empty_index Z length_encode length_closer canned
                    (ChatbotService.set_vector_store ready VectorStore.empty)
                    VectorStore.empty {| LLMHandler.model := lit "gpt-4o-mini" |}
                    3 (lit "bad") eq_refl eq_refl eq_refl eq_refl)).
  reflexivity.
Defined.

Lemma blank_message_is_rejected_witness :
  Routes.chat_request_valid [SPACE; NEWLINE; SPACE] = true /\
  forallb isspace [SPACE; NEWLINE; SPACE] = true /\
  Routes.chat length_encode length_closer canned ChatbotService.new
    [SPACE; NEWLINE; SPACE]
  = Routes.HTTPException 400 (Routes.Message Routes.EMPTY_MESSAGE).
Proof.
  split; [reflexivity|]. split; [reflexivity|].
  apply (blank_message_is_rejected Z length_encode length_closer canned
           ChatbotService.new [SPACE; NEWLINE; SPACE]); reflexivity.
Defined.

Lemma sample_chat :
  Routes.chat length_encode length_closer canned ready (lit " What is MEU? ")
  = Routes.Success
      {| Routes.status := lit "success";
         Routes.response := lit "MEU offers certificate courses in tourism." |}.
Proof. vm_compute. reflexivity. Qed.

Lemma chat_answer_provenance_witness :
  exists context,
    Z.of_nat (length context) <= 3 /\
    canned (lit "gpt-4o-mini") LLMHandler.system_message
      (LLMHandler.user_message (strip (lit " What is MEU? ")) context)
    = Some (lit "MEU offers certificate courses in tourism.").
Proof.
  destruct (chat_answer_provenance Z length_encode length_closer canned ready
              (lit " What is MEU? ") _ sample_chat)
    as (vs & h & k & context & _ & Hh & Hk & _ & _ & _ & Hlen & Ha).
  exists context. split.
  - injection Hk as <-. exact Hlen.
  - reflexivity.
Defined.

Lemma sample_chat_error :
  Routes.chat length_encode length_closer canned ready (lit "bad")
  = Routes.HTTPException 500 (Routes.Message Routes.CHAT_FAILED).
Proof. vm_compute. reflexivity. Qed.

Lemma chat_errors_are_generic_witness :
  Routes.chat length_encode length_closer canned ready (lit "bad")
  = Routes.HTTPException 500 (Routes.Message Routes.CHAT_FAILED) /\
  exists e, ChatbotService.chat length_encode length_closer canned ready
              (strip (lit "bad")) = Raised e.
Proof.
  split; [exact sample_chat_error|].
  destruct (chat_errors_are_generic Z length_encode length_closer canned ready
              (lit "bad") 500 _ sample_chat_error)
    as [(_ & _ & H)|[(H & _)|[(H & _)|(_ & _ & _ & He)]]];
    [discriminate H | discriminate H | discriminate H | exact He].
Defined.

Lemma reload_reports_document_count_witness :
  exists body s,
    Routes.reload_documents length_encode max_batch docs_fs settings 4 ready
    = Some (Routes.Success body, s) /\
    Routes.document_count body = 5.
Proof.
  assert (Hall : forallb (embeds length_encode)
                   (DocumentProcessor.file_documents (lit "a.txt")
                      (lit "docs/a.txt")
                      [lit "Sentence one."; lit "one. Sentence two.";
                       lit "two. Sentence three."; lit "hree."]
                    ++ DocumentProcessor.file_documents (lit "b.TXT")
                         (lit "docs/b.TXT") [lit "Short note."]) = true)
    by (vm_compute; reflexivity).
  assert (Hmax : Z.of_nat (length
                   (DocumentProcessor.file_documents (lit "a.txt")
                      (lit "docs/a.txt")
                      [lit "Sentence one."; lit "one. Sentence two.";
                       lit "two. Sentence three."; lit "hree."]
                    ++ DocumentProcessor.file_documents (lit "b.TXT")
                         (lit "docs/b.TXT") [lit "Short note."]))
                 <= max_batch) by (vm_compute; discriminate).
  destruct (reload_reports_document_count Z length_encode max_batch docs_fs
              settings 4 ready two_entries sentences_cfg _ eq_refl eq_refl
              sample_documents Hall Hmax) as (body & s & Hr & Hc).
  exists body, s. split; [exact Hr | exact Hc].
Defined.

End ServiceFacts.
